(** * The lottery history mirror: fetch, dedupe, persist, serve

    A shallow embedding of [main.py]: the background worker [fetch_job]
    that polls the upstream draw API and stores unseen issues in the
    [history] table, and the Flask view [get_history] that serves the
    fifty newest rows in the upstream's own JSON shape. *)

From Stdlib Require Import ZArith Lia Ascii.
From stdpp Require Import base tactics option list sorting strings pretty.

Local Open Scope string_scope.
Local Open Scope Z_scope.
Local Open Scope list_scope.

(** ** Python values

    What [r.json()] hands to the program: [None], booleans, integers,
    strings, lists and dicts.  A dict is kept as the list of its items in
    insertion order (the decoder leaves one binding per key).  Strings are
    byte strings (UTF-8); [str] and [int] below follow Python on ASCII
    text, and take every byte above 127 for a printable character that is
    neither a digit nor white space.  JSON numbers with a fraction or an
    exponent decode to floats and are outside this model, and so is the
    interpreter's bound on the length of decimal literals. *)

Module Py.

#[local] Unset Elimination Schemes.
Inductive json : Type :=
| JNull
| JBool (b : bool)
| JInt (z : Z)
| JStr (s : string)
| JArr (l : list json)
| JObj (d : list (string * json)).
#[local] Set Elimination Schemes.

(** Exceptions, by class.  [RequestException] is a network failure or a
    timeout of [requests.get], [HTTPError] comes from [raise_for_status],
    [JSONDecodeError] from [r.json()]; [DatabaseError] is what a driver
    raises when the store cannot be reached or refuses a statement, with
    the text that [str(e)] shows; [BindError] is a parameter the driver
    cannot pass on; [IntegrityError] is a second row for a primary key. *)
Inductive exn : Type :=
| KeyError (key : string)
| TypeError
| ValueError
| AttributeError
| RequestException (msg : string)
| HTTPError (status : Z)
| JSONDecodeError
| DatabaseError (msg : string)
| BindError
| IntegrityError (key : string).

Definition result (A : Type) : Type := exn + A.

Global Instance result_ret : MRet result := λ A x, inr x.

Global Instance result_bind : MBind result := λ A B f r,
  match r with
  | inr x => f x
  | inl e => inl e
  end.

(** *** [d[key]] and [d.get(key, default)] *)

Fixpoint lookup_key (key : string) (d : list (string * json)) : option json :=
  match d with
  | [] => None
  | (k, v) :: d' => if decide (k = key) then Some v else lookup_key key d'
  end.

Definition getitem (v : json) (key : string) : result json :=
  match v with
  | JObj d => match lookup_key key d with
              | Some x => inr x
              | None => inl (KeyError key)
              end
  | _ => inl TypeError
  end.

Definition get (v : json) (key : string) (dflt : json) : result json :=
  match v with
  | JObj d => inr (default dflt (lookup_key key d))
  | _ => inl AttributeError
  end.

(** *** [for item in data] *)

Definition iter (v : json) : result (list json) :=
  match v with
  | JArr l => inr l
  | JObj d => inr ((λ kv, JStr kv.1) <$> d)
  | JStr s => inr ((λ c, JStr (String c "")) <$> String.list_ascii_of_string s)
  | _ => inl TypeError
  end.

(** *** [str(v)]

    A string is returned as it is; anything else is shown by [repr]. *)

Definition squote : ascii := "039".
Definition dquote : ascii := "034".
Definition backslash : ascii := "092".

Definition quoted (s : string) : string := String dquote (s +:+ String dquote "").

Fixpoint has_char (c : ascii) (s : string) : bool :=
  match s with
  | "" => false
  | String c' s' => bool_decide (c' = c) || has_char c s'
  end.

Definition hex_digit (n : N) : ascii :=
  ascii_of_N (if (n <? 10)%N then 48 + n else 87 + n).

Definition repr_char (q c : ascii) : string :=
  if decide (c = q) then String backslash (String c "")
  else if decide (c = backslash) then String backslash (String backslash "")
  else if decide (c = "009"%char) then "\t"
  else if decide (c = "010"%char) then "\n"
  else if decide (c = "013"%char) then "\r"
  else
    let n := N_of_ascii c in
    if (n <? 32)%N || (n =? 127)%N
    then "\x" +:+ String (hex_digit (n / 16)) (String (hex_digit (n mod 16)) "")
    else String c "".

Fixpoint repr_chars (q : ascii) (s : string) : string :=
  match s with
  | "" => ""
  | String c s' => repr_char q c +:+ repr_chars q s'
  end.

Definition repr_str (s : string) : string :=
  let q := if has_char squote s && negb (has_char dquote s)
           then dquote else squote in
  String q (repr_chars q s +:+ String q "").

Fixpoint repr (v : json) : string :=
  match v with
  | JNull => "None"
  | JBool b => if b then "True" else "False"
  | JInt z => pretty z
  | JStr s => repr_str s
  | JArr l => "[" +:+ String.concat ", " (map repr l) +:+ "]"
  | JObj d =>
      "{" +:+ String.concat ", "
                (map (λ kv, match kv with
                            | (k, x) => repr_str k +:+ ": " +:+ repr x
                            end) d) +:+ "}"
  end.

Definition str (v : json) : string :=
  match v with
  | JStr s => s
  | _ => repr v
  end.

(** *** [needle in s] *)

Fixpoint contains (needle s : string) : bool :=
  String.prefix needle s ||
  match s with
  | "" => false
  | String _ s' => contains needle s'
  end.

(** *** [int(v)]

    An integer is itself, a boolean is 0 or 1, a string is read as a
    decimal literal: surrounding white space stripped, an optional sign,
    then digits, with single underscores allowed between digits. *)

Definition isspace (c : ascii) : bool :=
  let n := N_of_ascii c in
  ((9 <=? n) && (n <=? 13) || (n =? 32))%N.

Fixpoint lstrip (s : string) : string :=
  match s with
  | String c s' => if isspace c then lstrip s' else s
  | "" => ""
  end.

Definition strip (s : string) : string :=
  String.rev (lstrip (String.rev (lstrip s))).

Definition digit_of (c : ascii) : option Z :=
  let n := Z.of_N (N_of_ascii c) in
  if (48 <=? n) && (n <=? 57) then Some (n - 48) else None.

Fixpoint int_digits (acc : Z) (s : string) : option Z :=
  match s with
  | "" => Some acc
  | String c s' =>
      match digit_of c with
      | Some d => int_digits (10 * acc + d) s'
      | None =>
          if decide (c = "_"%char) then
            match s' with
            | String c' s'' =>
                match digit_of c' with
                | Some d => int_digits (10 * acc + d) s''
                | None => None
                end
            | "" => None
            end
          else None
      end
  end.

Definition int_unsigned (s : string) : option Z :=
  match s with
  | String c s' => d ← digit_of c; int_digits d s'
  | "" => None
  end.

Definition int_of_string (s : string) : option Z :=
  match strip s with
  | String c s' =>
      if decide (c = "+"%char) then int_unsigned s'
      else if decide (c = "-"%char) then Z.opp <$> int_unsigned s'
      else int_unsigned (String c s')
  | "" => None
  end.

Definition int (v : json) : result Z :=
  match v with
  | JInt z => inr z
  | JBool b => inr (if b then 1 else 0)
  | JStr s => match int_of_string s with
              | Some z => inr z
              | None => inl ValueError
              end
  | _ => inl TypeError
  end.

End Py.

(** ** The [history] table and its drivers

    [CREATE TABLE history (issue TEXT PRIMARY KEY, code INTEGER,
    open_time TEXT, created_at TIMESTAMP DEFAULT CURRENT_TIMESTAMP)].
    The program never reads [created_at], so a row keeps the other three
    columns; [open_time] is [None] for SQL NULL. *)

Module Store.
Import Py.

Record row : Type := Row {
  issue : string;
  code : Z;
  open_time : option string
}.

Global Instance row_eq_dec : EqDecision row.
Proof. solve_decision. Defined.

Definition issues (t : list row) : list string := issue <$> t.

Definition has_issue (i : string) (t : list row) : bool :=
  bool_decide (i ∈ issues t).

(** What differs between [psycopg2] with a Postgres server and [sqlite3]:
    which integers ([int_ok]) and which strings ([text_ok]) the driver
    binds, what a [TEXT] column keeps of a parameter that is not a string
    ([adapt_other]: [None] when the driver raises, [Some None] for NULL),
    and how [ORDER BY issue] compares ([collate], a total order).  A string
    that is bound is stored as it is.  Every driver takes 32-bit integers
    and ASCII text without the NUL character. *)

Definition ascii_text (s : string) : bool :=
  forallb (λ c, (0 <? N_of_ascii c)%N && (N_of_ascii c <? 128)%N)
          (String.list_ascii_of_string s).

Record Driver : Type := {
  int_ok : Z → bool;
  text_ok : string → bool;
  adapt_other : json → option (option string);
  collate : relation string;
  collate_dec :: RelDecision collate;
  collate_po :: PartialOrder collate;
  collate_total :: Total collate;
  int_ok_int32 : ∀ z, -2 ^ 31 ≤ z < 2 ^ 31 → int_ok z = true;
  text_ok_ascii : ∀ s, ascii_text s = true → text_ok s = true
}.

(** The value an [INTEGER] parameter and a [TEXT] parameter end up as,
    [None] when the driver raises instead. *)

Definition bind_int (drv : Driver) (z : Z) : option Z :=
  if int_ok drv z then Some z else None.

Definition bind_text (drv : Driver) (v : json) : option (option string) :=
  match v with
  | JStr s => if text_ok drv s then Some (Some s) else None
  | _ => adapt_other drv v
  end.

(** [sqlite3]: integers are 64-bit, [None] is NULL, an integer (a boolean
    is one) put in a [TEXT] column is kept as its decimal text, lists and
    dicts are refused, text compares byte by byte. *)

Definition int64 (z : Z) : bool := (- 2 ^ 63 <=? z) && (z <? 2 ^ 63).

Definition sqlite3_adapt_other (v : json) : option (option string) :=
  match v with
  | JNull => Some None
  | JBool b => Some (Some (if b then "1" else "0"))
  | JInt z => if int64 z then Some (Some (pretty z)) else None
  | JStr s => Some (Some s)
  | JArr _ | JObj _ => None
  end.

Program Definition sqlite3 : Driver := {|
  int_ok := int64;
  text_ok := λ _, true;
  adapt_other := sqlite3_adapt_other;
  collate := String.le
|}.
Next Obligation. intros z Hz. unfold int64. apply andb_true_intro. lia. Qed.
Next Obligation. done. Qed.

(** The least a driver does: 32-bit integers and ASCII text, nothing else;
    text compares byte by byte.  It stands for the Postgres side in the
    examples, where a driver has to be named. *)

Definition int32 (z : Z) : bool := (- 2 ^ 31 <=? z) && (z <? 2 ^ 31).

Program Definition minimal : Driver := {|
  int_ok := int32;
  text_ok := ascii_text;
  adapt_other := λ _, None;
  collate := String.le
|}.
Next Obligation. intros z Hz. unfold int32. apply andb_true_intro. lia. Qed.
Next Obligation. done. Qed.

(** *** Connections

    [table] is what is committed and every connection sees ([init_db] has
    created it); [pending] is what this connection has inserted and not yet
    committed, seen by this connection only; [tick] counts the calls made
    to the driver that reach the store: [connect], [execute] (with the
    fetch that follows it) and [commit].  [conn.cursor()] and
    [conn.close()] are local to the process and do not raise here. *)

Record db : Type := Db {
  table : list row;
  pending : list row;
  tick : nat
}.

Definition visible (s : db) : list row := table s ++ pending s.

(** The surroundings of one run: [fault n] makes the [n]-th driver call
    raise with that text; [others n] are the rows other writers (another
    run of the worker, another process) commit just before it.  The
    primary key holds for them too: a row whose issue is taken, also by a
    pending row, does not get in.  [calm] has no fault and no other
    writer. *)

Record env : Type := Env {
  fault : nat → option string;
  others : nat → list row
}.

Definition calm : env := Env (λ _, None) (λ _, []).

Fixpoint arrive (rs : list row) (t p : list row) : list row :=
  match rs with
  | [] => t
  | r :: rs' =>
      if has_issue (issue r) (t ++ p) then arrive rs' t p
      else arrive rs' (t ++ [r]) p
  end.

(** A computation on a connection that may raise an [E]; the connection
    state survives the exception. *)

Definition M (E A : Type) : Type := db → db * (E + A).

Global Instance M_ret {E} : MRet (M E) := λ A x s, (s, inr x).

Global Instance M_bind {E} : MBind (M E) := λ A B f m s,
  match m s with
  | (s', inr x) => f x s'
  | (s', inl e) => (s', inl e)
  end.

Definition raise {E A} (e : E) : M E A := λ s, (s, inl e).

Definition lift {E A} (r : E + A) : M E A := λ s, (s, r).

Definition gets {E A} (f : db → A) : M E A := λ s, (s, inr (f s)).

Definition modify {E} (f : db → db) : M E unit := λ s, (f s, inr tt).

Definition reraise {E E' A} (f : E → E') (m : M E A) : M E' A := λ s,
  match m s with
  | (s', inr x) => (s', inr x)
  | (s', inl e) => (s', inl (f e))
  end.

(** Every driver call: the other writers' rows land, the call is counted,
    and it raises if the surroundings say so. *)

Definition land (e : env) (s : db) : db :=
  Db (arrive (others e (tick s)) (table s) (pending s))
     (pending s) (S (tick s)).

Definition call (e : env) : M string unit := λ s,
  (land e s, match fault e (tick s) with
             | Some msg => inl msg
             | None => inr tt
             end).

(** [ORDER BY issue DESC LIMIT n] *)

Definition desc (drv : Driver) (r1 r2 : row) : Prop :=
  collate drv (issue r2) (issue r1).

Global Instance desc_dec drv : RelDecision (desc drv).
Proof. intros r1 r2. unfold desc. apply _. Defined.

Definition recentRecords (drv : Driver) (n : nat) (t : list row) : list row :=
  take n (merge_sort (desc drv) t).

End Store.

(** ** The worker and the API *)

Module Server.
Import Py Store.

(** What [requests.get] meets: no answer at all, or an answer with a
    status and a body that parses as JSON or does not. *)
Inductive upstream : Type :=
| NetworkFailure (msg : string)
| Response (status : Z) (body : option json).

(** The lines the worker prints (without their time stamp):
    [Fetching data...], [Saved n new records.], [Error in fetch job: e]. *)
Inductive log_line : Type :=
| Fetching
| Saved (new_count : nat)
| ErrorInFetchJob (e : exn).

(** [r = requests.get(...)], [r.raise_for_status()] and
    [data = r.json().get('data', {}).get('list', [])]. *)
Definition raise_for_status (status : Z) : result unit :=
  if (400 <=? status) && (status <? 600) then inl (HTTPError status)
  else inr tt.

Definition read_page (u : upstream) : result json :=
  match u with
  | NetworkFailure msg => inl (RequestException msg)
  | Response status body =>
      raise_for_status status;;
      match body with
      | None => inl JSONDecodeError
      | Some j => d ← get j "data" (JObj []); get d "list" (JArr [])
      end
  end.

(** The three assignments that open the loop body:
    [issue = str(item['issueNumber'])], [code = int(item['number'])],
    [open_time = item['openTime']]. *)
Definition read_item (item : json) : result (string * Z * json) :=
  v ← getitem item "issueNumber";
  n ← getitem item "number";
  code ← int n;
  open_time ← getitem item "openTime";
  mret (str v, code, open_time).

(** [if DATABASE_URL:] *)
Definition truthy (o : option string) : bool :=
  match o with
  | Some (String _ _) => true
  | _ => false
  end.

Section Server.

Variable DATABASE_URL : option string.
Variable psycopg2 : Driver.

Definition get_db_connection (e : env) : M string Driver :=
  call e;; mret (if truthy DATABASE_URL then psycopg2 else sqlite3).

(** [cur.execute("SELECT issue FROM history WHERE issue = ?", (issue,))]
    and [cur.fetchone()], as the truth value the program takes of it. *)
Definition select_issue (e : env) (conn : Driver) (issue : string) : M exn bool :=
  reraise DatabaseError (call e);;
  match bind_text conn (JStr issue) with
  | Some _ => gets (λ s, has_issue issue (visible s))
  | None => raise BindError
  end.

(** [cur.execute("INSERT INTO history (issue, code, open_time) VALUES (?, ?, ?)", ...)] *)
Definition insert (e : env) (conn : Driver)
    (issue : string) (code : Z) (open_time : json) : M exn unit :=
  reraise DatabaseError (call e);;
  match bind_text conn (JStr issue), bind_int conn code, bind_text conn open_time with
  | Some _, Some c, Some o =>
      taken ← gets (λ s, has_issue issue (visible s));
      if taken : bool then raise (IntegrityError issue)
      else modify (λ s, Db (table s) (pending s ++ [Row issue c o]) (tick s))
  | _, _, _ => raise BindError
  end.

(** [conn.commit()] *)
Definition commit (e : env) : M exn unit :=
  reraise DatabaseError (call e);;
  modify (λ s, Db (table s ++ pending s) [] (tick s)).

(** The body of the [for item in data] loop. *)
Definition fetch_item (e : env) (conn : Driver) (item : json) (new_count : nat)
    : M exn nat :=
  '(issue, code, open_time) ← lift (read_item item);
  found ← select_issue e conn issue;
  if found : bool then mret new_count
  else insert e conn issue code open_time;; mret (S new_count).

Fixpoint fetch_items (e : env) (conn : Driver) (data : list json) (new_count : nat)
    : M exn nat :=
  match data with
  | [] => mret new_count
  | item :: rest =>
      n ← fetch_item e conn item new_count;
      fetch_items e conn rest n
  end.

(** The [try] block of [fetch_job]. *)
Definition try_fetch (e : env) (u : upstream) : M exn nat :=
  data ← lift (read_page u);
  conn ← reraise DatabaseError (get_db_connection e);
  items ← lift (iter data);
  new_count ← fetch_items e conn items 0%nat;
  commit e;;
  mret new_count.

(** One run of the worker on the committed table [t]: the table it leaves
    and the lines it prints.  [except Exception] catches whatever the [try]
    block raises; the connection is then dropped without a commit (the
    interpreter closes it when it reclaims it), and its pending rows with
    it. *)
Definition fetch_job (e : env) (u : upstream) (t : list row)
    : list row * list log_line :=
  let '(s, r) := try_fetch e u (Db t [] 0) in
  (table s,
   Fetching :: match r with
               | inr new_count =>
                   if (0 <? new_count)%nat then [Saved new_count] else []
               | inl ex => [ErrorInFetchJob ex]
               end).

(** [GET /api/history] *)

Definition format_row (r : row) : json :=
  JObj [("issueNumber", JStr (issue r));
        ("number", JStr (str (JInt (code r))));
        ("openTime", match open_time r with
                     | Some s => JStr s
                     | None => JNull
                     end)].

Definition read_history (e : env) : M string (list row) :=
  conn ← get_db_connection e;
  call e;;
  gets (λ s, recentRecords conn 50 (visible s)).

Definition get_history (e : env) (t : list row) : json * Z :=
  match (read_history e (Db t [] 0)).2 with
  | inr rows =>
      let formatted_list := format_row <$> rows in
      (JObj [("code", JInt 0);
             ("msg", JStr "Success");
             ("data", JObj [("totalCount", JInt (Z.of_nat (length formatted_list)));
                            ("list", JArr formatted_list)])],
       200)
  | inl msg => (JObj [("error", JStr msg)], 500)
  end.

End Server.

End Server.

Import Py Store Server.

(** * Properties *)

(** ** Rows and the primary key *)

Definition copies (i : string) (t : list row) : nat :=
  length (filter (λ r, issue r = i) t).

Lemma issues_app t p : issues (t ++ p) = issues t ++ issues p.
Proof. unfold issues. apply fmap_app. Qed.

Lemma has_issue_true i t : has_issue i t = true ↔ i ∈ issues t.
Proof. unfold has_issue. apply bool_decide_eq_true. Qed.

Lemma has_issue_false i t : has_issue i t = false ↔ i ∉ issues t.
Proof. unfold has_issue. apply bool_decide_eq_false. Qed.

Lemma copies_absent i t : i ∉ issues t → copies i t = 0%nat.
Proof.
  unfold copies. induction t as [|r t IH]; intros Hi; [done|].
  rewrite filter_cons. simpl in Hi. apply not_elem_of_cons in Hi as [Hne Hi].
  destruct (decide (issue r = i)) as [Heq|_]; [by destruct Hne|auto].
Qed.

Lemma copies_unique i t : NoDup (issues t) → i ∈ issues t → copies i t = 1%nat.
Proof.
  unfold copies. induction t as [|r t IH]; simpl; intros Hnd Hi.
  - by apply elem_of_nil in Hi.
  - apply NoDup_cons in Hnd as [Hr Hnd]. rewrite filter_cons.
    destruct (decide (issue r = i)) as [Heq|Hne]; simpl.
    + subst i. f_equal. by apply copies_absent.
    + apply elem_of_cons in Hi as [Hi|Hi]; [by destruct Hne|auto].
Qed.

Lemma visible_snoc_NoDup t p r :
  NoDup (issues (t ++ p)) → issue r ∉ issues (t ++ p) →
  NoDup (issues ((t ++ [r]) ++ p)) ∧ NoDup (issues (t ++ p ++ [r])).
Proof.
  intros Hnd Hr.
  assert (NoDup (issues (r :: t ++ p))) as Hc by (by apply NoDup_cons).
  split; eapply NoDup_Permutation_proper; try exact Hc.
  - unfold issues. apply fmap_Permutation.
    rewrite <- (assoc_L (++)). simpl. by rewrite Permutation_middle.
  - unfold issues. apply fmap_Permutation.
    rewrite (assoc_L (++)). by rewrite <- Permutation_cons_append.
Qed.

(** ** Other writers *)

(** [landed e rs]: every row of [rs] was committed by another writer. *)
Definition landed (e : env) (rs : list row) : Prop :=
  ∀ r, r ∈ rs → ∃ k, r ∈ others e k.

Lemma arrive_spec rs t p :
  ∃ rs', arrive rs t p = t ++ rs' ∧ rs' ⊆ rs.
Proof.
  revert t. induction rs as [|r rs IH]; intros t; simpl.
  - exists []. by rewrite app_nil_r.
  - destruct (has_issue (issue r) (t ++ p)).
    + destruct (IH t) as (rs' & -> & Hsub). exists rs'. split; [done|].
      intros x Hx. apply elem_of_cons. right. by apply Hsub.
    + destruct (IH (t ++ [r])) as (rs' & -> & Hsub). exists (r :: rs').
      split; [by rewrite <- (assoc_L (++))|].
      intros x [->|Hx]%elem_of_cons; apply elem_of_cons; [by left|right; auto].
Qed.

Lemma arrive_NoDup rs t p :
  NoDup (issues (t ++ p)) → NoDup (issues (arrive rs t p ++ p)).
Proof.
  revert t. induction rs as [|r rs IH]; intros t Hnd; simpl; [done|].
  destruct (has_issue (issue r) (t ++ p)) eqn:Hr; [auto|].
  apply IH. apply has_issue_false in Hr. by apply visible_snoc_NoDup.
Qed.

(** [grows e s s']: from [s] to [s'] the committed table only gained rows
    of other writers. *)
Definition grows (e : env) (s s' : db) : Prop :=
  ∃ rs, table s' = table s ++ rs ∧ landed e rs.

(** The primary key holds among the rows a connection sees. *)
Definition keyed (s : db) : Prop := NoDup (issues (visible s)).

Lemma landed_nil e : landed e [].
Proof. intros r Hr. by apply elem_of_nil in Hr. Qed.

Lemma landed_app e rs1 rs2 : landed e rs1 → landed e rs2 → landed e (rs1 ++ rs2).
Proof. intros H1 H2 r [Hr|Hr]%elem_of_app; auto. Qed.

Lemma grows_refl e s : grows e s s.
Proof. exists []. split; [by rewrite app_nil_r|apply landed_nil]. Qed.

Lemma grows_trans e s1 s2 s3 : grows e s1 s2 → grows e s2 s3 → grows e s1 s3.
Proof.
  intros (rs1 & H1 & L1) (rs2 & H2 & L2). exists (rs1 ++ rs2).
  split; [by rewrite H2, H1, (assoc_L (++))|by apply landed_app].
Qed.

Lemma grows_same_table e s s' : table s' = table s → grows e s s'.
Proof. intros H. exists []. split; [by rewrite app_nil_r|apply landed_nil]. Qed.

Lemma land_grows e s : grows e s (land e s).
Proof.
  destruct (arrive_spec (others e (tick s)) (table s) (pending s))
    as (rs & Hrs & Hsub).
  exists rs. split; [done|]. intros r Hr. exists (tick s). by apply Hsub.
Qed.

Lemma land_keyed e s : keyed s → keyed (land e s).
Proof. unfold keyed, visible, land. simpl. apply arrive_NoDup. Qed.

Lemma land_calm s : land calm s = Db (table s) (pending s) (S (tick s)).
Proof. done. Qed.

Create HintDb store.

#[local] Hint Resolve grows_refl grows_trans land_grows land_keyed : store.

Ltac unfold_M :=
  unfold mbind, M_bind, mret, M_ret, result_bind, result_ret,
    lift, raise, gets, modify, reraise, call in *.

#[local] Arguments bind_text : simpl never.
#[local] Arguments bind_int : simpl never.
#[local] Arguments has_issue : simpl never.
#[local] Arguments land : simpl never.
#[local] Arguments visible : simpl never.
#[local] Arguments fetch_item : simpl never.

Ltac trivial_step :=
  intros ?; simplify_eq; split_and!; eauto with store; done.

(** ** One item *)

Lemma read_item_not_integrity item j : read_item item ≠ inl (IntegrityError j).
Proof.
  unfold read_item, getitem, int. unfold_M.
  repeat (case_match; simplify_eq; try done).
Qed.

(** What a run of the loop body does to a connection, whatever the other
    writers and the faults are. *)
Lemma fetch_item_step e conn item n s s' r :
  fetch_item e conn item n s = (s', r) →
  grows e s s' ∧ (keyed s → keyed s') ∧
  (∀ j, r = inl (IntegrityError j) → j ∈ issues (table s')).
Proof.
  unfold fetch_item, select_issue, insert. unfold_M.
  pose proof (read_item_not_integrity item) as Hread.
  destruct (read_item item) as [ex|[[i c] o]].
  { intros ?; simplify_eq. split_and!; eauto with store.
    intros j [= ->]. by destruct (Hread j). }
  clear Hread.
  destruct (fault e (tick s)); simpl; [by trivial_step|].
  destruct (bind_text conn (JStr i)); simpl; [|by trivial_step].
  destruct (has_issue i (visible (land e s))) eqn:Hfound; [by trivial_step|].
  set (s1 := land e s) in *.
  destruct (fault e (tick s1)); simpl; [by trivial_step|].
  destruct (bind_int conn c) as [c'|]; simpl; [|by trivial_step].
  destruct (bind_text conn o) as [o'|]; simpl; [|by trivial_step].
  destruct (has_issue i (visible (land e s1))) eqn:Htaken; simpl.
  - intros ?; simplify_eq. split_and!; eauto with store.
    intros j [= <-]. apply has_issue_true in Htaken. apply has_issue_false in Hfound.
    unfold visible in *. rewrite issues_app in Htaken, Hfound.
    apply elem_of_app in Htaken as [Ht|Hp]; [done|].
    destruct Hfound. apply elem_of_app. by right.
  - intros ?; simplify_eq. split_and!; [| |done].
    + eapply grows_trans; [apply land_grows|].
      eapply grows_trans; [apply (land_grows e s1)|]. by apply grows_same_table.
    + intros Hk. apply land_keyed with (e := e) in Hk.
      apply land_keyed with (e := e) in Hk. fold s1 in Hk.
      apply has_issue_false in Htaken. unfold keyed, visible in *. simpl.
      by apply (visible_snoc_NoDup _ _ (Row i c' o')).
Qed.

(** ** The loop and the whole [try] block *)

Lemma fetch_items_step e conn items : ∀ n s s' r,
  fetch_items e conn items n s = (s', r) →
  grows e s s' ∧ (keyed s → keyed s') ∧
  (∀ j, r = inl (IntegrityError j) → j ∈ issues (table s')).
Proof.
  induction items as [|item items IH]; intros n s s' r; simpl.
  - unfold_M. by trivial_step.
  - unfold mbind, M_bind.
    destruct (fetch_item e conn item n s) as [s1 [ex|n1]] eqn:H1;
      apply fetch_item_step in H1 as (Hg1 & Hk1 & Hi1).
    + intros ?; simplify_eq. done.
    + intros (Hg & Hk & Hi)%IH. split_and!; eauto with store.
Qed.

Lemma read_page_not_integrity u j : read_page u ≠ inl (IntegrityError j).
Proof.
  unfold read_page, raise_for_status, get. unfold_M.
  repeat (case_match; simplify_eq; try done).
Qed.

Lemma iter_not_integrity v j : iter v ≠ inl (IntegrityError j).
Proof. unfold iter. by case_match. Qed.

Section try_fetch.

Variable DATABASE_URL : option string.
Variable psycopg2 : Driver.

Abbreviation try_fetch := (try_fetch DATABASE_URL psycopg2).
Abbreviation fetch_job := (fetch_job DATABASE_URL psycopg2).

Lemma keyed_table s : keyed s → NoDup (issues (table s)).
Proof.
  unfold keyed, visible. rewrite issues_app. by intros [? _]%NoDup_app.
Qed.

Lemma try_fetch_step e u t s' r :
  try_fetch e u (Db t [] 0) = (s', r) →
  (NoDup (issues t) → NoDup (issues (table s'))) ∧
  (∀ j, r = inl (IntegrityError j) → j ∈ issues (table s')) ∧
  (∀ ex, r = inl ex → ∃ rs, table s' = t ++ rs ∧ landed e rs).
Proof.
  set (s0 := Db t [] 0).
  assert (keyed_s0 : NoDup (issues t) → keyed s0).
  { unfold keyed, visible, s0. simpl. by rewrite app_nil_r. }
  unfold try_fetch, get_db_connection, commit. unfold_M.
  pose proof (read_page_not_integrity u) as Hpage.
  destruct (read_page u) as [ex|data].
  { intros [= ? ?]; subst s' r. split_and!; [done| |].
    - intros j [= ->]. by destruct (Hpage j).
    - intros ex' _. apply (grows_refl e s0). }
  clear Hpage.
  pose proof (land_grows e s0) as Hg0.
  pose proof (land_keyed e s0) as Hk0.
  destruct (fault e (tick s0)); simpl.
  { intros [= ? ?]; subst s' r. split_and!; [by auto 8 using keyed_table|done|].
    intros ex' _. apply Hg0. }
  pose proof (iter_not_integrity data) as Hiter.
  destruct (iter data) as [ex|items].
  { intros [= ? ?]; subst s' r. split_and!; [by auto 8 using keyed_table| |].
    - intros j [= ->]. by destruct (Hiter j).
    - intros ex' _. apply Hg0. }
  clear Hiter.
  destruct (fetch_items e _ items 0%nat (land e s0)) as [s1 [ex|n]] eqn:H1;
    apply fetch_items_step in H1 as (Hg1 & Hk1 & Hi1).
  { intros [= ? ?]; subst s' r. split_and!; [by auto 8 using keyed_table|done|].
    intros ex' _. apply (grows_trans e s0 _ _ Hg0 Hg1). }
  pose proof (land_grows e s1) as Hg2.
  pose proof (land_keyed e s1) as Hk2.
  destruct (fault e (tick s1)); simpl.
  { intros [= ? ?]; subst s' r. split_and!; [by auto 8 using keyed_table|done|].
    intros ex' _. apply (grows_trans e s0 s1); [by eapply grows_trans|done]. }
  intros [= ? ?]; subst s' r. split_and!; [|done|done].
  intros Hnd. simpl. apply (Hk2 (Hk1 (Hk0 (keyed_s0 Hnd)))).
Qed.

End try_fetch.

(** ** What a run adds *)

(** An item that has the three fields, of the types [str] and [int] take. *)
Definition well_formed (item : json) : Prop := ∃ x, read_item item = inr x.

Lemma fetch_item_count e conn item n s s' r :
  fetch_item e conn item n s = (s', r) →
  ∃ new, pending s' = pending s ++ new ∧
         ∀ n', r = inr n' → n' = (n + length new)%nat ∧ well_formed item.
Proof.
  unfold fetch_item, select_issue, insert, well_formed. unfold_M.
  destruct (read_item item) as [ex|[[i c] o]].
  { intros ?; simplify_eq. exists []. by rewrite app_nil_r. }
  destruct (fault e (tick s)); simpl.
  { intros ?; simplify_eq. exists []. by rewrite app_nil_r. }
  destruct (bind_text conn (JStr i)); simpl;
    [|intros ?; simplify_eq; exists []; by rewrite app_nil_r].
  destruct (has_issue i (visible (land e s))).
  { intros ?; simplify_eq. exists []. rewrite app_nil_r. split; [done|].
    intros n' [= <-]. simpl. split; [lia|eauto]. }
  destruct (fault e (tick (land e s))); simpl.
  { intros ?; simplify_eq. exists []. by rewrite app_nil_r. }
  destruct (bind_int conn c) as [c'|]; simpl;
    [|intros ?; simplify_eq; exists []; by rewrite app_nil_r].
  destruct (bind_text conn o) as [o'|]; simpl;
    [|intros ?; simplify_eq; exists []; by rewrite app_nil_r].
  destruct (has_issue i (visible (land e (land e s)))); simpl.
  - intros ?; simplify_eq. exists []. by rewrite app_nil_r.
  - intros ?; simplify_eq. exists [Row i c' o']. split; [done|].
    intros n' [= <-]. simpl. split; [lia|eauto].
Qed.

Lemma fetch_items_count e conn items : ∀ n s s' r,
  fetch_items e conn items n s = (s', r) →
  ∃ new, pending s' = pending s ++ new ∧
         ∀ n', r = inr n' →
               n' = (n + length new)%nat ∧ Forall well_formed items.
Proof.
  induction items as [|item items IH]; intros n s s' r; simpl.
  - unfold_M. intros ?; simplify_eq. exists []. rewrite app_nil_r.
    split; [done|]. intros n' [= <-]. simpl. split; [lia|done].
  - unfold mbind, M_bind.
    destruct (fetch_item e conn item n s) as [s1 [ex|n1]] eqn:H1;
      apply fetch_item_count in H1 as (new1 & Hp1 & Hn1).
    + intros ?; simplify_eq. by exists new1.
    + intros (new2 & Hp2 & Hn2)%IH. exists (new1 ++ new2).
      split; [by rewrite Hp2, Hp1, (assoc_L (++))|].
      intros n' Hr. destruct (Hn1 n1 eq_refl) as [-> Hwf].
      destruct (Hn2 n' Hr) as [-> Hwfs]. rewrite length_app.
      split; [lia|by constructor].
Qed.

(** ** A run with no fault and no other writer *)

Lemma landed_calm rs : landed calm rs → rs = [].
Proof.
  destruct rs as [|r rs]; [done|]. intros H.
  destruct (H r) as [k Hk]; [by left|]. by apply elem_of_nil in Hk.
Qed.

Lemma visible_land_calm s : visible (land calm s) = visible s.
Proof. done. Qed.

Lemma fetch_item_calm conn item n s :
  fetch_item calm conn item n s =
  match read_item item with
  | inl ex => (s, inl ex)
  | inr (i, c, o) =>
      match bind_text conn (JStr i) with
      | None => (land calm s, inl BindError)
      | Some _ =>
          if has_issue i (visible s) then (land calm s, inr n)
          else match bind_int conn c, bind_text conn o with
               | Some c', Some o' =>
                   (Db (table s) (pending s ++ [Row i c' o']) (S (S (tick s))),
                    inr (S n))
               | _, _ => (land calm (land calm s), inl BindError)
               end
      end
  end.
Proof.
  unfold fetch_item, select_issue, insert. unfold_M.
  destruct (read_item item) as [ex|[[i c] o]]; [done|]. simpl.
  destruct (bind_text conn (JStr i)); [|done].
  rewrite visible_land_calm.
  destruct (has_issue i (visible s)) eqn:Hfound; [done|].
  destruct (bind_int conn c); [|done].
  destruct (bind_text conn o); [|done].
  rewrite !visible_land_calm, Hfound. done.
Qed.

(** The issue under which an item is looked up, when the item has the three
    fields and the driver binds the issue. *)
Definition item_key (conn : Driver) (item : json) : option string :=
  match read_item item with
  | inr (i, _, _) => if bind_text conn (JStr i) is Some _ then Some i else None
  | inl _ => None
  end.

Definition stored (conn : Driver) (t : list row) (item : json) : Prop :=
  ∃ i, item_key conn item = Some i ∧ i ∈ issues t.

Lemma fetch_items_calm_ok conn items : ∀ n s s' n',
  fetch_items calm conn items n s = (s', inr n') →
  table s' = table s ∧
  (∃ new, pending s' = pending s ++ new ∧ n' = (n + length new)%nat) ∧
  Forall (stored conn (visible s')) items.
Proof.
  induction items as [|item items IH]; intros n s s' n'; simpl.
  - unfold_M. intros ?; simplify_eq. split_and!; [done| |done].
    exists []. by rewrite app_nil_r, Nat.add_0_r.
  - unfold mbind, M_bind. rewrite fetch_item_calm.
    assert (∀ i c o b, read_item item = inr (i, c, o) →
              bind_text conn (JStr i) = Some b → item_key conn item = Some i)
      as Hkey by (unfold item_key; intros i c o b -> ->; done).
    destruct (read_item item) as [ex|[[i c] o]]; [done|].
    destruct (bind_text conn (JStr i)) eqn:Hbind; [|done].
    specialize (Hkey _ _ _ _ eq_refl Hbind).
    destruct (has_issue i (visible s)) eqn:Hfound.
    + rewrite land_calm. intros (Ht & (new & Hp & Hn) & Hst)%IH. simpl in *.
      split_and!; [done|by exists new|].
      apply Forall_cons. split; [|done]. exists i. split; [done|].
      apply has_issue_true in Hfound. unfold visible in *.
      rewrite Ht, Hp, !issues_app. rewrite issues_app in Hfound.
      rewrite !elem_of_app. rewrite elem_of_app in Hfound. tauto.
    + destruct (bind_int conn c) as [c'|]; [|done].
      destruct (bind_text conn o) as [o'|]; [|done].
      intros (Ht & (new & Hp & Hn) & Hst)%IH. simpl in *.
      split_and!; [done| |].
      * exists (Row i c' o' :: new). rewrite Hp, <- (assoc_L (++)).
        split; [done|]. simpl. lia.
      * apply Forall_cons. split; [|done]. exists i. split; [done|].
        unfold visible. rewrite Hp, !issues_app. simpl.
        rewrite !elem_of_app, elem_of_cons. auto.
Qed.

Lemma fetch_items_calm_again conn items : ∀ n s,
  Forall (stored conn (visible s)) items →
  fetch_items calm conn items n s =
  (Db (table s) (pending s) (tick s + length items), inr n).
Proof.
  induction items as [|item items IH]; intros n s Hst; simpl.
  - unfold_M. destruct s. simpl. by rewrite Nat.add_0_r.
  - apply Forall_cons in Hst as [(i & Hkey & Hi) Hst].
    unfold mbind, M_bind. rewrite fetch_item_calm.
    unfold item_key in Hkey.
    destruct (read_item item) as [ex|[[i' c] o]]; [done|].
    destruct (bind_text conn (JStr i')); [|done]. simplify_eq.
    apply has_issue_true in Hi. rewrite Hi.
    rewrite IH by done. simpl. do 2 f_equal. lia.
Qed.

(** ** Whole runs *)

Definition driver (DATABASE_URL : option string) (psycopg2 : Driver) : Driver :=
  if truthy DATABASE_URL then psycopg2 else sqlite3.

(** The issues of a page: of every item that has the three fields. *)
Definition payload_issues (u : upstream) : list string :=
  match read_page u ≫= iter with
  | inr items =>
      omap (λ item, match read_item item with
                    | inr (i, _, _) => Some i
                    | inl _ => None
                    end) items
  | inl _ => []
  end.

Section runs.

Variable DATABASE_URL : option string.
Variable psycopg2 : Driver.

Abbreviation try_fetch := (try_fetch DATABASE_URL psycopg2).
Abbreviation fetch_job := (fetch_job DATABASE_URL psycopg2).
Abbreviation conn := (driver DATABASE_URL psycopg2).

(** [completes e u t n]: the [try] block runs to its end on the committed
    table [t], with [new_count = n]. *)
Definition completes (e : env) (u : upstream) (t : list row) (n : nat) : Prop :=
  (try_fetch e u (Db t [] 0)).2 = inr n.

(** A run that completes has added its [new_count] rows to the table, after
    whatever other writers committed meanwhile; every item was well formed. *)
Lemma try_fetch_completes e u t s' n :
  try_fetch e u (Db t [] 0) = (s', inr n) →
  ∃ data items rs new,
    read_page u = inr data ∧ iter data = inr items ∧
    Forall well_formed items ∧
    table s' = t ++ rs ++ new ∧ landed e rs ∧ length new = n.
Proof.
  unfold Server.try_fetch, get_db_connection, commit. unfold_M.
  destruct (read_page u) as [ex|data]; [done|].
  set (s0 := Db t [] 0).
  pose proof (land_grows e s0) as Hg0.
  destruct (fault e (tick s0)); simpl; [done|].
  destruct (iter data) as [ex|items] eqn:Hiter; [done|].
  destruct (fetch_items e _ items 0%nat (land e s0)) as [s1 [ex|n1]] eqn:H1;
    [done|].
  pose proof H1 as (Hg1 & _)%fetch_items_step.
  apply fetch_items_count in H1 as (new & Hp & Hn).
  destruct (Hn n1 eq_refl) as [-> Hwf].
  pose proof (land_grows e s1) as Hg2.
  destruct (fault e (tick s1)); simpl; [done|].
  intros [= <- <-].
  destruct (grows_trans _ _ _ _ (grows_trans _ _ _ _ Hg0 Hg1) Hg2)
    as (rs & Hrs & Hl).
  exists data, items, rs, new. simpl in *.
  rewrite Hrs, Hp. by rewrite (assoc_L (++)).
Qed.

Lemma try_fetch_calm_ok u t s' n :
  try_fetch calm u (Db t [] 0) = (s', inr n) →
  ∃ data items new,
    read_page u = inr data ∧ iter data = inr items ∧
    table s' = t ++ new ∧ length new = n ∧
    Forall (stored conn (table s')) items.
Proof.
  unfold Server.try_fetch, get_db_connection, commit. unfold_M.
  destruct (read_page u) as [ex|data]; [done|]. simpl.
  destruct (iter data) as [ex|items] eqn:Hiter; [done|].
  fold conn.
  destruct (fetch_items calm conn items 0%nat _) as [s1 [ex|n1]] eqn:H1; [done|].
  apply fetch_items_calm_ok in H1 as (Ht & (new & Hp & Hn) & Hst).
  simpl. intros ?; simplify_eq. exists data, items, (pending s1). simpl in *.
  unfold visible in Hst. subst new. rewrite Ht in Hst |- *. done.
Qed.

Lemma try_fetch_calm_again u t data items :
  read_page u = inr data → iter data = inr items →
  Forall (stored conn t) items →
  try_fetch calm u (Db t [] 0) = (Db t [] (S (S (length items))), inr 0%nat).
Proof.
  intros Hpage Hiter Hst.
  unfold Server.try_fetch, get_db_connection, commit. unfold_M.
  rewrite Hpage. simpl. rewrite Hiter. fold conn.
  rewrite land_calm. simpl.
  rewrite fetch_items_calm_again; simpl.
  - by rewrite app_nil_r.
  - unfold visible. simpl. by rewrite app_nil_r.
Qed.

Lemma try_fetch_calm_fails u t s' ex :
  try_fetch calm u (Db t [] 0) = (s', inl ex) → table s' = t.
Proof.
  intros H. apply try_fetch_step in H as (_ & _ & H).
  destruct (H ex eq_refl) as (rs & -> & ->%landed_calm). apply app_nil_r.
Qed.

Lemma payload_issue_stored u data items t i :
  read_page u = inr data → iter data = inr items →
  Forall (stored conn t) items → i ∈ payload_issues u → i ∈ issues t.
Proof.
  intros Hpage Hiter Hst. unfold payload_issues. rewrite Hpage. simpl.
  unfold mbind, result_bind. rewrite Hiter.
  intros (item & Hitem & Hi)%list_elem_of_omap.
  rewrite Forall_forall in Hst. destruct (Hst item Hitem) as (i' & Hkey & Hi').
  unfold item_key in Hkey.
  destruct (read_item item) as [ex|[[i'' c] o]]; [done|].
  destruct (bind_text conn (JStr i'')); by simplify_eq.
Qed.

End runs.

(** * The builtins on small inputs *)

Example str_of_int : str (JInt 100) = "100".
Proof. reflexivity. Qed.

Example str_of_none : str JNull = "None".
Proof. reflexivity. Qed.

Example str_of_list :
  str (JArr [JInt 1; JStr "a'b"; JNull]) = "[1, " +:+ quoted "a'b" +:+ ", None]".
Proof. reflexivity. Qed.

Example int_of_padded : int (JStr " +1_000 ") = inr 1000.
Proof. reflexivity. Qed.

Example int_of_text : int (JStr "7a") = inl ValueError.
Proof. reflexivity. Qed.

Example int_of_bad_underscore : int (JStr "1__0") = inl ValueError.
Proof. reflexivity. Qed.

Example int_of_negative : int (JStr "-007") = inr (-7).
Proof. reflexivity. Qed.

Example str_of_dict :
  str (JObj [("a", JInt 1); ("b", JArr [JBool true])]) = "{'a': 1, 'b': [True]}".
Proof. reflexivity. Qed.

Example int_of_none : int JNull = inl TypeError.
Proof. reflexivity. Qed.

Example getitem_missing : getitem (JObj [("a", JNull)]) "b" = inl (KeyError "b").
Proof. reflexivity. Qed.

Example get_on_list : get (JArr []) "data" (JObj []) = inl AttributeError.
Proof. reflexivity. Qed.

Example newest_first :
  issues (recentRecords sqlite3 2 [Row "99" 1 None; Row "101" 2 None; Row "100" 3 None])
  = ["99"; "101"].
Proof. reflexivity. Qed.

Example text_order :
  issues (recentRecords sqlite3 50
            ((λ i, Row i 0 None) <$> ["99"; "a"; "ABC"; "3"; "20"; "abc"; ""; "10"]))
  = ["abc"; "a"; "ABC"; "99"; "3"; "20"; "10"; ""].
Proof. reflexivity. Qed.

Example sqlite3_keeps_integers_as_text :
  bind_text sqlite3 (JInt 12345) = Some (Some "12345") ∧
  bind_text sqlite3 (JBool true) = Some (Some "1") ∧
  bind_text sqlite3 JNull = Some None ∧
  bind_text sqlite3 (JArr [JInt 1]) = None ∧
  bind_int sqlite3 (2 ^ 63) = None.
Proof. by split_and!. Qed.

(** * The history endpoint *)

Global Instance desc_trans drv : Transitive (desc drv).
Proof. intros r1 r2 r3 H12 H23. unfold desc in *. by etrans. Qed.

Global Instance desc_total drv : Total (desc drv).
Proof. intros r1 r2. unfold desc. destruct (total (collate drv) (issue r1) (issue r2)); auto. Qed.

Lemma recentRecords_sorted drv n t : StronglySorted (desc drv) (recentRecords drv n t).
Proof.
  unfold recentRecords.
  pose proof (StronglySorted_merge_sort (desc drv) t) as Hs.
  rewrite <- (take_drop n (merge_sort (desc drv) t)) in Hs.
  by apply StronglySorted_app_1_l in Hs.
Qed.

Lemma recentRecords_length drv n t :
  length (recentRecords drv n t) = min n (length t).
Proof.
  unfold recentRecords. rewrite length_take.
  by rewrite (Permutation_length (merge_sort_Permutation (desc drv) t)).
Qed.

Lemma recentRecords_rows drv n t : recentRecords drv n t ⊆+ t.
Proof.
  unfold recentRecords. etrans; [apply sublist_submseteq, sublist_take|].
  by rewrite merge_sort_Permutation.
Qed.

Lemma read_history_calm D pg t :
  (read_history D pg calm (Db t [] 0)).2 = inr (recentRecords (driver D pg) 50 t).
Proof.
  unfold read_history, get_db_connection. unfold_M. simpl.
  unfold visible. simpl. by rewrite app_nil_r.
Qed.

(** C2. For every table and every [n], [ORDER BY issue DESC LIMIT n]
    returns rows of the table, sorted by issue descending in the store's
    collation, [min n (length t)] of them; the endpoint reads exactly this
    with [n = 50]. *)
Theorem recentRecords_ordered_and_capped
    (DATABASE_URL : option string) (psycopg2 : Driver) (n : nat) (t : list row) :
  let conn := driver DATABASE_URL psycopg2 in
  StronglySorted (desc conn) (recentRecords conn n t) ∧
  length (recentRecords conn n t) = min n (length t) ∧
  recentRecords conn n t ⊆+ t ∧
  (read_history DATABASE_URL psycopg2 calm (Db t [] 0)).2
    = inr (recentRecords conn 50 t).
Proof.
  intros conn. split_and!.
  - apply recentRecords_sorted.
  - apply recentRecords_length.
  - apply recentRecords_rows.
  - apply read_history_calm.
Qed.

(** * Scenarios *)

Definition item (issueNumber : string) (number : json) (openTime : string) : json :=
  JObj [("issueNumber", JStr issueNumber); ("number", number);
        ("openTime", JStr openTime)].

Definition item100 : json := item "100" (JInt 7) "2024-01-01T00:00:00".

Definition item101 : json := item "101" (JStr "3") "2024-01-01T00:01:00".

(** An item without its [number]. *)
Definition item_without_number : json :=
  JObj [("issueNumber", JStr "102"); ("openTime", JStr "2024-01-01T00:02:00")].

(** A successful answer of the upstream carrying [items]. *)
Definition page (items : list json) : upstream :=
  Response 200 (Some (JObj [("data", JObj [("list", JArr items)])])).

Definition row100 : row := Row "100" 7 (Some "2024-01-01T00:00:00").

Definition row101 : row := Row "101" 3 (Some "2024-01-01T00:01:00").

(** * Round trip *)

Lemma fetch_job_item100 DATABASE_URL psycopg2 :
  fetch_job DATABASE_URL psycopg2 calm (page [item100]) [] =
  ([row100], [Fetching; Saved 1]).
Proof.
  unfold fetch_job, try_fetch, get_db_connection, commit. unfold_M. simpl.
  unfold_M. rewrite fetch_item_calm. simpl.
  unfold bind_text, bind_int.
  rewrite !text_ok_ascii by done. rewrite int_ok_int32 by lia. done.
Qed.

(** C3. From an empty store, one run of the worker over the page holding
    the single item [{issueNumber:"100", number:7,
    openTime:"2024-01-01T00:00:00"}], then [GET /api/history]: the answer
    is the success envelope with [totalCount] 1 and that one item, its
    number as the string ["7"]. *)
Theorem round_trip_shape (DATABASE_URL : option string) (psycopg2 : Driver) :
  let stored := (fetch_job DATABASE_URL psycopg2 calm (page [item100]) []).1 in
  stored = [Row "100" 7 (Some "2024-01-01T00:00:00")] ∧
  get_history DATABASE_URL psycopg2 calm stored =
  (JObj [("code", JInt 0);
         ("msg", JStr "Success");
         ("data", JObj [("totalCount", JInt 1);
                        ("list", JArr [JObj [("issueNumber", JStr "100");
                                             ("number", JStr "7");
                                             ("openTime", JStr "2024-01-01T00:00:00")]])])],
   200).
Proof.
  rewrite fetch_job_item100. simpl. split; [done|].
  unfold get_history. rewrite read_history_calm. done.
Qed.

(** * Answers of the endpoint *)

(** The first driver call of [get_history] that fails, if one does: opening
    the connection (call 0) or running the query (call 1). *)
Definition read_fault (e : env) : option string :=
  match fault e 0 with
  | Some msg => Some msg
  | None => fault e 1
  end.

(** The committed table at the time of the query. *)
Definition seen (e : env) (t : list row) : list row :=
  table (land e (land e (Db t [] 0))).

Lemma seen_calm t : seen calm t = t.
Proof. done. Qed.

Lemma read_history_cases D pg e t :
  (read_history D pg e (Db t [] 0)).2 =
  match read_fault e with
  | Some msg => inl msg
  | None => inr (recentRecords (driver D pg) 50 (seen e t))
  end.
Proof.
  unfold read_history, get_db_connection, read_fault, seen. unfold_M. simpl.
  destruct (fault e 0); simpl; [done|].
  destruct (fault e 1); simpl; [done|].
  unfold visible. simpl. by rewrite app_nil_r.
Qed.

(** C10. In every successful answer of [/api/history], [totalCount] is the
    length of the list in that answer: at most 50, and the smaller of 50
    and the number of rows stored, not that number itself. *)
Theorem totalCount_is_list_length
    (DATABASE_URL : option string) (psycopg2 : Driver)
    (e : env) (t : list row) (body : json) :
  get_history DATABASE_URL psycopg2 e t = (body, 200) →
  ∃ l, body = JObj [("code", JInt 0);
                    ("msg", JStr "Success");
                    ("data", JObj [("totalCount", JInt (Z.of_nat (length l)));
                                   ("list", JArr l)])] ∧
       (length l ≤ 50)%nat ∧
       length l = min 50 (length (seen e t)).
Proof.
  unfold get_history. rewrite read_history_cases.
  destruct (read_fault e) as [msg|]; [intros [= _ ?]; done|].
  intros [= <-]. eexists. split; [done|].
  rewrite length_fmap, recentRecords_length. split; lia.
Qed.

Lemma totalCount_is_list_length_witness :
  ∃ l, (get_history None minimal calm [row100; row101]).1 =
       JObj [("code", JInt 0);
             ("msg", JStr "Success");
             ("data", JObj [("totalCount", JInt (Z.of_nat (length l)));
                            ("list", JArr l)])] ∧
       (length l ≤ 50)%nat ∧
       length l = min 50 (length (seen calm [row100; row101])).
Proof.
  apply (totalCount_is_list_length None minimal calm [row100; row101]).
  vm_compute. reflexivity.
Defined.

(** Fifty-one rows stored, fifty counted. *)
Definition numbered (k : nat) : row :=
  Row (pretty (1000 + k)%nat) (Z.of_nat k) None.

Example totalCount_of_51_rows :
  ∃ l, get_history None minimal calm (numbered <$> seq 0 51) =
       (JObj [("code", JInt 0);
              ("msg", JStr "Success");
              ("data", JObj [("totalCount", JInt 50); ("list", JArr l)])],
        200).
Proof. eexists. vm_compute. reflexivity. Qed.

(** C8, as the code has it.  When opening the connection or running the
    query fails, [/api/history] answers [{"error": msg}] with status 500,
    [msg] being the text of the driver's exception, unchanged. *)
Theorem history_store_failure
    (DATABASE_URL : option string) (psycopg2 : Driver)
    (e : env) (t : list row) (msg : string) :
  read_fault e = Some msg →
  get_history DATABASE_URL psycopg2 e t = (JObj [("error", JStr msg)], 500).
Proof.
  intros Hfault. unfold get_history. by rewrite read_history_cases, Hfault.
Qed.

(** The store is down: every call to the driver raises with [msg]. *)
Definition down (msg : string) : env := Env (λ _, Some msg) (λ _, []).

Lemma history_store_failure_witness :
  read_fault (down "unable to open database file") =
    Some "unable to open database file" ∧
  get_history None minimal (down "unable to open database file") [row100] =
    (JObj [("error", JStr "unable to open database file")], 500).
Proof.
  split; [reflexivity|].
  apply (history_store_failure None minimal
           (down "unable to open database file") [row100]).
  reflexivity.
Defined.

(** C8, as the specification has it: the answer to a failed read never
    shows the connection string. *)
Definition hides_connection_string
    (DATABASE_URL : option string) (psycopg2 : Driver)
    (e : env) (t : list row) : Prop :=
  ∀ url msg,
    DATABASE_URL = Some url →
    get_history DATABASE_URL psycopg2 e t = (JObj [("error", JStr msg)], 500) →
    contains url msg = false.

(** What [psycopg2.connect] raises on a [DATABASE_URL] it cannot read as a
    connection string: here a URL that lost the colon after its scheme. *)
Definition invalid_dsn (url : string) : string :=
  "invalid dsn: missing " +:+ quoted "=" +:+ " after " +:+ quoted url
  +:+ " in connection info string" +:+ String "010"%char "".

Definition mistyped_url : string := "postgres//app:hunter2@db.internal/lottery".

(** With that [DATABASE_URL] the answer to a failed read carries the whole
    connection string. *)
Lemma connection_string_in_answer :
  get_history (Some mistyped_url) minimal (down (invalid_dsn mistyped_url)) [] =
    (JObj [("error", JStr (invalid_dsn mistyped_url))], 500) ∧
  contains mistyped_url (invalid_dsn mistyped_url) = true ∧
  ¬ hides_connection_string (Some mistyped_url) minimal
      (down (invalid_dsn mistyped_url)) [].
Proof.
  split_and!; [reflexivity|reflexivity|].
  intros H. specialize (H mistyped_url (invalid_dsn mistyped_url) eq_refl eq_refl).
  vm_compute in H. discriminate.
Qed.

(** * Runs of the worker *)

Lemma fetch_job_cases D pg e u t :
  fetch_job D pg e u t =
  (table (try_fetch D pg e u (Db t [] 0)).1,
   Fetching :: match (try_fetch D pg e u (Db t [] 0)).2 with
               | inr n => if (0 <? n)%nat then [Saved n] else []
               | inl ex => [ErrorInFetchJob ex]
               end).
Proof. unfold fetch_job. by destruct (try_fetch D pg e u _). Qed.

Lemma landed_nobody e rs : (∀ k, others e k = []) → landed e rs → rs = [].
Proof.
  intros Hnone Hl. destruct rs as [|r rs]; [done|].
  destruct (Hl r) as [k Hk]; [by left|]. rewrite Hnone in Hk.
  by apply elem_of_nil in Hk.
Qed.

(** A run that raises: what is left of it. *)
Lemma fetch_job_aborted D pg e u t ex :
  (try_fetch D pg e u (Db t [] 0)).2 = inl ex →
  ∃ rs, fetch_job D pg e u t = (t ++ rs, [Fetching; ErrorInFetchJob ex]) ∧
        landed e rs ∧
        ((∀ k, others e k = []) → rs = []) ∧
        (NoDup (issues t) → NoDup (issues (t ++ rs))) ∧
        (∀ j, ex = IntegrityError j → j ∈ issues (t ++ rs)).
Proof.
  intros Hr. rewrite fetch_job_cases, Hr.
  destruct (try_fetch D pg e u (Db t [] 0)) as [s r] eqn:Hrun. simpl in *.
  subst r. apply try_fetch_step in Hrun as (Hnd & Hi & Habort).
  destruct (Habort ex eq_refl) as (rs & Ht & Hl). exists rs.
  rewrite <- Ht. split_and!; try done.
  - intros Hnone. by apply (landed_nobody e).
  - intros j ->. by apply Hi.
Qed.

(** X1. The issues of the table stay pairwise distinct, whatever the run
    meets: faults, other writers, a page that repeats an issue. *)
Lemma fetch_job_keeps_primary_key D pg e u t :
  NoDup (issues t) → NoDup (issues (fetch_job D pg e u t).1).
Proof.
  intros Hnd. rewrite fetch_job_cases. simpl.
  destruct (try_fetch D pg e u (Db t [] 0)) as [s r] eqn:Hrun. simpl.
  apply try_fetch_step in Hrun as (Hkey & _). auto.
Qed.

(** C9. A run commits once, at its end: if anything raises in the [try]
    block, no row of this run is kept.  The committed table is the one the
    run started from, followed by what other writers committed meanwhile
    (nothing, when there are none), and the error is printed. *)
Theorem aborted_run_persists_nothing
    (DATABASE_URL : option string) (psycopg2 : Driver)
    (e : env) (u : upstream) (t : list row) (ex : exn) :
  (try_fetch DATABASE_URL psycopg2 e u (Db t [] 0)).2 = inl ex →
  ∃ rs, fetch_job DATABASE_URL psycopg2 e u t
          = (t ++ rs, [Fetching; ErrorInFetchJob ex]) ∧
        landed e rs ∧
        ((∀ k, others e k = []) → rs = []).
Proof.
  intros (rs & Hjob & Hl & Hnone & _)%fetch_job_aborted. by exists rs.
Qed.

Lemma aborted_run_persists_nothing_witness :
  (try_fetch None minimal calm (page [item100; item_without_number]) (Db [] [] 0)).2
    = inl (KeyError "number") ∧
  ∃ rs, fetch_job None minimal calm (page [item100; item_without_number]) []
          = ([] ++ rs, [Fetching; ErrorInFetchJob (KeyError "number")]) ∧
        landed calm rs ∧
        ((∀ k, others calm k = []) → rs = []).
Proof.
  split; [reflexivity|].
  apply (aborted_run_persists_nothing None minimal calm
           (page [item100; item_without_number]) [] (KeyError "number")).
  reflexivity.
Defined.

(** Another writer commits issue 100 between this run's [SELECT] for it
    (driver call 1) and its [INSERT] (driver call 2). *)
Definition race : env :=
  Env (λ _, None) (λ k, if decide (k = 2%nat) then [row100] else []).

(** ** The race on an issue *)

Lemma fetch_items_app e conn before rest : ∀ n s,
  fetch_items e conn (before ++ rest) n s =
  match fetch_items e conn before n s with
  | (s', inr n') => fetch_items e conn rest n' s'
  | (s', inl ex) => (s', inl ex)
  end.
Proof.
  induction before as [|item before IH]; intros n s; simpl; [done|].
  unfold mbind, M_bind. destruct (fetch_item e conn item n s) as [s' [ex|n']]; [done|].
  apply IH.
Qed.

(** A row another writer commits takes its issue, whether the row itself
    gets in or one with the same issue was there before it. *)
Lemma arrive_takes r rs : ∀ t p,
  r ∈ rs → issue r ∈ issues (arrive rs t p ++ p).
Proof.
  induction rs as [|r0 rs IH]; intros t p Hr; [by apply elem_of_nil in Hr|].
  simpl. apply elem_of_cons in Hr as [->|Hr].
  - destruct (has_issue (issue r0) (t ++ p)) eqn:Htaken.
    + apply has_issue_true in Htaken.
      destruct (arrive_spec rs t p) as (rs' & -> & _).
      rewrite !issues_app in *. rewrite !elem_of_app in *. tauto.
    + destruct (arrive_spec rs (t ++ [r0]) p) as (rs' & -> & _).
      rewrite !issues_app, !elem_of_app. simpl.
      do 2 left. right. by left.
  - destruct (has_issue (issue r0) (t ++ p)); by apply IH.
Qed.

(** The loop body on an item whose [SELECT] finds nothing and whose issue
    another writer commits before the [INSERT]. *)
Lemma fetch_item_raced e conn item i c o n s r :
  read_item item = inr (i, c, o) →
  is_Some (bind_text conn (JStr i)) →
  is_Some (bind_int conn c) →
  is_Some (bind_text conn o) →
  fault e (tick s) = None →
  i ∉ issues (visible (land e s)) →
  fault e (S (tick s)) = None →
  r ∈ others e (S (tick s)) → issue r = i →
  fetch_item e conn item n s = (land e (land e s), inl (IntegrityError i)).
Proof.
  intros Hitem [bi Hbi] [bc Hbc] [bo Hbo] Hf1 Hfree Hf2 Hr Hi.
  unfold fetch_item, select_issue, insert. unfold_M.
  rewrite Hitem, Hf1, Hbi. simpl.
  apply has_issue_false in Hfree. rewrite Hfree.
  assert (tick (land e s) = S (tick s)) as Htick by done.
  rewrite Htick, Hf2, Hbc, Hbo.
  assert (has_issue i (visible (land e (land e s))) = true) as ->; [|done].
  apply has_issue_true. subst i. unfold visible.
  unfold land at 1. simpl. rewrite ?Htick. by apply arrive_takes.
Qed.

(** C4, as the code has it.  The items before have gone through; for this
    item the [SELECT] finds nothing, and another writer commits a row for
    the same issue just before the [INSERT].  Then the insert raises: the
    run stops at that item, prints the error, keeps none of its own rows,
    and the table holds exactly one row for that issue. *)
Theorem duplicate_key_aborts_run
    (DATABASE_URL : option string) (psycopg2 : Driver)
    (e : env) (u : upstream) (t : list row)
    (data : json) (before : list json) (item : json) (rest : list json)
    (i : string) (c : Z) (o : json) (s : db) (n : nat) (r : row) :
  let conn := driver DATABASE_URL psycopg2 in
  NoDup (issues t) →
  read_page u = inr data → iter data = inr (before ++ item :: rest) →
  fault e 0 = None →
  fetch_items e conn before 0 (land e (Db t [] 0)) = (s, inr n) →
  read_item item = inr (i, c, o) →
  is_Some (bind_text conn (JStr i)) →
  is_Some (bind_int conn c) →
  is_Some (bind_text conn o) →
  fault e (tick s) = None →
  i ∉ issues (visible (land e s)) →
  fault e (S (tick s)) = None →
  r ∈ others e (S (tick s)) → issue r = i →
  (try_fetch DATABASE_URL psycopg2 e u (Db t [] 0)).2 = inl (IntegrityError i) ∧
  ∃ rs, fetch_job DATABASE_URL psycopg2 e u t
          = (t ++ rs, [Fetching; ErrorInFetchJob (IntegrityError i)]) ∧
        landed e rs ∧
        copies i (t ++ rs) = 1%nat.
Proof.
  intros conn Hnd Hpage Hiter Hf0 Hbefore Hitem Hbi Hbc Hbo Hf1 Hfree Hf2 Hr Hi.
  assert ((try_fetch DATABASE_URL psycopg2 e u (Db t [] 0)).2
          = inl (IntegrityError i)) as Hraise.
  { unfold try_fetch, get_db_connection. unfold_M. rewrite Hpage. simpl.
    rewrite Hf0, Hiter. fold (driver DATABASE_URL psycopg2). fold conn.
    change (land e {| table := t; pending := []; tick := 0 |})
      with (land e (Db t [] 0)).
    rewrite fetch_items_app, Hbefore. simpl. unfold mbind, M_bind.
    by rewrite (fetch_item_raced e conn item i c o n s r). }
  split; [done|].
  apply fetch_job_aborted in Hraise as (rs & Hjob & Hl & _ & Hnd' & Hin).
  exists rs. split_and!; [done|done|]. apply copies_unique; auto.
Qed.

Lemma duplicate_key_aborts_run_witness :
  let u := page [item100; item101] in
  let s := land race (Db [] [] 0) in
  NoDup (issues []) ∧
  read_page u = inr (JArr [item100; item101]) ∧
  iter (JArr [item100; item101]) = inr ([] ++ item100 :: [item101]) ∧
  fault race 0 = None ∧
  fetch_items race (driver None minimal) [] 0 (land race (Db [] [] 0)) = (s, inr 0%nat) ∧
  read_item item100 = inr ("100", 7, JStr "2024-01-01T00:00:00") ∧
  fault race (tick s) = None ∧
  ("100" ∉ issues (visible (land race s))) ∧
  fault race (S (tick s)) = None ∧
  (row100 ∈ others race (S (tick s))) ∧
  (try_fetch None minimal race u (Db [] [] 0)).2 = inl (IntegrityError "100") ∧
  ∃ rs, fetch_job None minimal race u []
          = ([] ++ rs, [Fetching; ErrorInFetchJob (IntegrityError "100")]) ∧
        landed race rs ∧
        copies "100" ([] ++ rs) = 1%nat.
Proof.
  intros u s.
  assert ("100" ∉ issues (visible (land race s))) as Hfree
    by (vm_compute; apply not_elem_of_nil).
  assert (row100 ∈ others race (S (tick s))) as Hr by (vm_compute; by left).
  do 7 (split; [first [apply NoDup_nil_2 | reflexivity]|]).
  split; [exact Hfree|]. split; [reflexivity|]. split; [exact Hr|].
  apply (duplicate_key_aborts_run None minimal race u [] (JArr [item100; item101])
           [] item100 [item101] "100" 7 (JStr "2024-01-01T00:00:00") s 0%nat row100);
    first [apply NoDup_nil_2 | exact Hfree | exact Hr | reflexivity | by eexists].
Defined.

(** The same race one item later: 101 is inserted (driver calls 1 and 2),
    then 100 is committed by another writer between its [SELECT] (call 3)
    and its [INSERT] (call 4); the pending row for 101 is lost with the
    run. *)
Example race_after_an_insert :
  fetch_job None minimal
    (Env (λ _, None) (λ k, if decide (k = 4%nat) then [row100] else []))
    (page [item101; item100]) [] =
  ([row100], [Fetching; ErrorInFetchJob (IntegrityError "100")]).
Proof. reflexivity. Qed.

(** C4, as the specification has it: the run goes on past the duplicate,
    so it prints no error and every issue of the page ends up stored
    once. *)
Definition survives_duplicate_key
    (DATABASE_URL : option string) (psycopg2 : Driver)
    (e : env) (u : upstream) (t : list row) : Prop :=
  (∀ ex, ErrorInFetchJob ex ∉ (fetch_job DATABASE_URL psycopg2 e u t).2) ∧
  (∀ i, i ∈ payload_issues u →
        copies i (fetch_job DATABASE_URL psycopg2 e u t).1 = 1%nat).

(** The page [100, 101] on an empty table, with that race on 100: the run
    prints the error and never reaches 101. *)
Lemma duplicate_key_stops_the_run :
  fetch_job None minimal race (page [item100; item101]) [] =
    ([row100], [Fetching; ErrorInFetchJob (IntegrityError "100")]) ∧
  payload_issues (page [item100; item101]) = ["100"; "101"] ∧
  copies "101" [row100] = 0%nat ∧
  ¬ survives_duplicate_key None minimal race (page [item100; item101]) [].
Proof.
  split_and!; [reflexivity..|].
  intros [Hlog _]. apply (Hlog (IntegrityError "100")).
  apply list_elem_of_In. vm_compute. auto.
Qed.

(** An item that lacks one of the three fields, or holds one that [int]
    refuses. *)
Definition malformed (item : json) : Prop := ∃ ex, read_item item = inl ex.

(** C5, as the code has it.  One malformed item in the page aborts the
    whole run: the error is printed and no row of this run is kept,
    neither of the items before it nor of those after it. *)
Theorem malformed_item_aborts_run
    (DATABASE_URL : option string) (psycopg2 : Driver)
    (e : env) (u : upstream) (t : list row) (data : json) (items : list json) :
  read_page u = inr data → iter data = inr items →
  Exists malformed items →
  ∃ ex rs, fetch_job DATABASE_URL psycopg2 e u t
             = (t ++ rs, [Fetching; ErrorInFetchJob ex]) ∧
           landed e rs ∧
           ((∀ k, others e k = []) → rs = []).
Proof.
  intros Hpage Hiter Hbad.
  destruct (try_fetch DATABASE_URL psycopg2 e u (Db t [] 0)) as [s [ex|n]] eqn:Hrun.
  - destruct (fetch_job_aborted DATABASE_URL psycopg2 e u t ex)
      as (rs & Hjob & Hl & Hnone & _); [by rewrite Hrun|].
    by exists ex, rs.
  - apply try_fetch_completes in Hrun
      as (data' & items' & rs & new & Hpage' & Hiter' & Hwf & _).
    rewrite Hpage in Hpage'. simplify_eq.
    rewrite Hiter in Hiter'. simplify_eq.
    apply Exists_exists in Hbad as (item & Hitem & ex & Hex).
    rewrite Forall_forall in Hwf. destruct (Hwf item Hitem) as [x Hx].
    congruence.
Qed.

Lemma malformed_item_aborts_run_witness :
  Exists malformed [item100; item_without_number; item101] ∧
  ∃ ex rs, fetch_job None minimal calm
             (page [item100; item_without_number; item101]) [row101]
             = ([row101] ++ rs, [Fetching; ErrorInFetchJob ex]) ∧
           landed calm rs ∧
           ((∀ k, others calm k = []) → rs = []).
Proof.
  assert (Exists malformed [item100; item_without_number; item101]) as Hbad.
  { apply Exists_cons_tl, Exists_cons_hd. by exists (KeyError "number"). }
  split; [exact Hbad|].
  apply (malformed_item_aborts_run None minimal calm
           (page [item100; item_without_number; item101]) [row101]
           (JArr [item100; item_without_number; item101])
           [item100; item_without_number; item101]).
  - reflexivity.
  - reflexivity.
  - exact Hbad.
Defined.

(** C5, as the specification has it: every well-formed item of the page
    is stored, whatever the other items are. *)
Definition isolates_malformed_items
    (DATABASE_URL : option string) (psycopg2 : Driver)
    (e : env) (u : upstream) (t : list row) : Prop :=
  ∀ i, i ∈ payload_issues u →
       copies i (fetch_job DATABASE_URL psycopg2 e u t).1 = 1%nat.

(** The page [100, an item without number, 101] on an empty table: nothing
    is stored, neither 100 nor 101. *)
Lemma malformed_item_loses_the_page :
  fetch_job None minimal calm (page [item100; item_without_number; item101]) [] =
    ([], [Fetching; ErrorInFetchJob (KeyError "number")]) ∧
  payload_issues (page [item100; item_without_number; item101]) = ["100"; "101"] ∧
  ¬ isolates_malformed_items None minimal calm
      (page [item100; item_without_number; item101]) [].
Proof.
  split_and!; [reflexivity..|].
  intros H. specialize (H "100"). vm_compute in H.
  assert ("100" ∈ ["100"; "101"]) as Hin by (apply list_elem_of_In; simpl; auto).
  specialize (H Hin). discriminate.
Qed.

(** A run that completes, with no fault and no other writer: every item of
    the page is stored, the table grew by [new_count] rows and keeps its
    primary key. *)
Lemma completed_run_stores D pg u t n :
  completes D pg calm u t n →
  ∃ data items new,
    read_page u = inr data ∧ iter data = inr items ∧
    fetch_job D pg calm u t
      = (t ++ new, Fetching :: if (0 <? n)%nat then [Saved n] else []) ∧
    length new = n ∧
    Forall (stored (driver D pg) (t ++ new)) items ∧
    (NoDup (issues t) → NoDup (issues (t ++ new))).
Proof.
  unfold completes. intros Hr. rewrite fetch_job_cases, Hr.
  destruct (try_fetch D pg calm u (Db t [] 0)) as [s r] eqn:Hrun.
  simpl in *. subst r.
  pose proof Hrun as (Hnd & _)%try_fetch_step.
  apply try_fetch_calm_ok in Hrun as (data & items & new & ? & ? & Ht & ? & ?).
  exists data, items, new. rewrite Ht in *. by split_and!.
Qed.

Lemma stored_payload D pg u data items t i :
  read_page u = inr data → iter data = inr items →
  Forall (stored (driver D pg) t) items → NoDup (issues t) →
  i ∈ payload_issues u → copies i t = 1%nat.
Proof.
  intros Hpage Hiter Hst Hnd Hi. apply copies_unique; [done|].
  by eapply payload_issue_stored.
Qed.

(** C1. Two runs over the same page, with no fault and no other writer:
    the second run leaves the table as the first run left it.  When the
    first run completes with [new_count = n], every issue of the page is
    then stored exactly once and the table has grown by [n] rows; the
    second run completes with [new_count = 0] and prints no [Saved] line. *)
Theorem fetch_job_idempotent
    (DATABASE_URL : option string) (psycopg2 : Driver)
    (u : upstream) (t : list row) :
  let t1 := (fetch_job DATABASE_URL psycopg2 calm u t).1 in
  (fetch_job DATABASE_URL psycopg2 calm u t1).1 = t1 ∧
  ∀ n, completes DATABASE_URL psycopg2 calm u t n →
       (NoDup (issues t) → ∀ i, i ∈ payload_issues u → copies i t1 = 1%nat) ∧
       length t1 = (length t + n)%nat ∧
       completes DATABASE_URL psycopg2 calm u t1 0 ∧
       fetch_job DATABASE_URL psycopg2 calm u t1 = (t1, [Fetching]).
Proof.
  assert (∀ n, completes DATABASE_URL psycopg2 calm u t n →
    let t1 := (fetch_job DATABASE_URL psycopg2 calm u t).1 in
    (NoDup (issues t) → ∀ i, i ∈ payload_issues u → copies i t1 = 1%nat) ∧
    length t1 = (length t + n)%nat ∧
    completes DATABASE_URL psycopg2 calm u t1 0 ∧
    fetch_job DATABASE_URL psycopg2 calm u t1 = (t1, [Fetching])) as Hdone.
  { intros n (data & items & new & Hpage & Hiter & Hjob & Hlen & Hst & Hnd')
      %completed_run_stores.
    rewrite Hjob. simpl.
    pose proof (try_fetch_calm_again DATABASE_URL psycopg2 u (t ++ new) data items
                  Hpage Hiter Hst) as Hagain.
    split_and!.
    - intros Hnd i Hi. eapply stored_payload; eauto.
    - rewrite length_app. lia.
    - unfold completes. by rewrite Hagain.
    - rewrite fetch_job_cases, Hagain. done. }
  simpl. split; [|exact Hdone].
  destruct (try_fetch DATABASE_URL psycopg2 calm u (Db t [] 0)).2 as [ex|n] eqn:Hrun.
  - apply fetch_job_aborted in Hrun as (rs & Hjob & ->%landed_calm & _).
    rewrite app_nil_r in Hjob. rewrite Hjob. simpl. by rewrite Hjob.
  - destruct (Hdone n Hrun) as (_ & _ & _ & Hjob). by rewrite Hjob.
Qed.

Lemma fetch_job_idempotent_witness :
  let u := page [item100; item101; item100] in
  let t1 := (fetch_job None minimal calm u [row101]).1 in
  completes None minimal calm u [row101] 1 ∧
  NoDup (issues [row101]) ∧
  t1 = [row101; row100] ∧
  (fetch_job None minimal calm u t1).1 = t1 ∧
  (∀ i, i ∈ payload_issues u → copies i t1 = 1%nat) ∧
  length t1 = (length [row101] + 1)%nat ∧
  completes None minimal calm u t1 0 ∧
  fetch_job None minimal calm u t1 = (t1, [Fetching]).
Proof.
  intros u t1.
  assert (completes None minimal calm u [row101] 1) as Hrun by reflexivity.
  assert (NoDup (issues [row101])) as Hnd by apply NoDup_singleton.
  destruct (fetch_job_idempotent None minimal u [row101]) as [Hsame Hdone].
  destruct (Hdone 1%nat Hrun) as (Hcopies & Hlen & Hzero & Hjob).
  split_and!; try done. by apply Hcopies.
Defined.

(** * Upstream failures *)

(** [requests.get] raises, or [raise_for_status] does (a 4xx or 5xx status). *)
Definition request_fails (u : upstream) : bool :=
  match u with
  | NetworkFailure _ => true
  | Response status _ => (400 <=? status) && (status <? 600)
  end.

(** C6, as the code has it.  A run whose request to the upstream fails
    ([requests.get] raises, or the status is one of 400..599, at which
    [raise_for_status] raises) leaves the table as it is, whatever the
    surroundings, and returns after printing the error;
    the next run that completes stores every issue of its page exactly once
    and adds [new_count] rows, as if the failed run had not been. *)
Theorem failed_request_leaves_store
    (DATABASE_URL : option string) (psycopg2 : Driver)
    (e : env) (u : upstream) (t : list row) :
  request_fails u = true →
  (∃ ex, fetch_job DATABASE_URL psycopg2 e u t = (t, [Fetching; ErrorInFetchJob ex])) ∧
  ∀ u' n,
    NoDup (issues t) →
    completes DATABASE_URL psycopg2 calm u' t n →
    let t' := (fetch_job DATABASE_URL psycopg2 calm u'
                 (fetch_job DATABASE_URL psycopg2 e u t).1).1 in
    length t' = (length t + n)%nat ∧
    ∀ i, i ∈ payload_issues u' → copies i t' = 1%nat.
Proof.
  intros Hfail.
  assert (∃ ex, fetch_job DATABASE_URL psycopg2 e u t
                = (t, [Fetching; ErrorInFetchJob ex])) as [ex Hjob].
  { unfold fetch_job, try_fetch. unfold_M.
    destruct u as [msg|status body]; simpl in *; [by eexists|].
    unfold raise_for_status. rewrite Hfail. by eexists. }
  split; [by exists ex|]. rewrite Hjob. simpl.
  intros u' n Hnd (data & items & new & Hpage & Hiter & Hjob' & Hlen & Hst & Hnd')
    %completed_run_stores.
  rewrite Hjob'. simpl. split; [rewrite length_app; lia|].
  intros i Hi. eapply stored_payload; eauto.
Qed.

Lemma failed_request_leaves_store_witness :
  let t' := (fetch_job None minimal calm (page [item100])
               (fetch_job None minimal calm (Response 500 None) [row101]).1).1 in
  request_fails (Response 500 None) = true ∧
  NoDup (issues [row101]) ∧
  completes None minimal calm (page [item100]) [row101] 1 ∧
  (∃ ex, fetch_job None minimal calm (Response 500 None) [row101]
         = ([row101], [Fetching; ErrorInFetchJob ex])) ∧
  length t' = (length [row101] + 1)%nat ∧
  ∀ i, i ∈ payload_issues (page [item100]) → copies i t' = 1%nat.
Proof.
  intros t'.
  assert (request_fails (Response 500 None) = true) as Hfail by reflexivity.
  assert (NoDup (issues [row101])) as Hnd by apply NoDup_singleton.
  assert (completes None minimal calm (page [item100]) [row101] 1) as Hrun
    by reflexivity.
  destruct (failed_request_leaves_store None minimal calm (Response 500 None)
              [row101] Hfail) as [Hsame Hnext].
  destruct (Hnext (page [item100]) 1%nat Hnd Hrun) as [Hlen Hcopies].
  by split_and!.
Defined.

(** C6, as the specification has it: a failed request is one that meets
    a network failure or a status that is not a success (not 2xx), and such
    a run leaves the table as it is. *)
Definition non_success (u : upstream) : bool :=
  match u with
  | NetworkFailure _ => true
  | Response status _ => negb ((200 <=? status) && (status <? 300))
  end.

Definition non_success_leaves_store
    (DATABASE_URL : option string) (psycopg2 : Driver)
    (e : env) (u : upstream) (t : list row) : Prop :=
  non_success u = true → (fetch_job DATABASE_URL psycopg2 e u t).1 = t.

(** An answer with status 300 (multiple choices, no [Location] to follow)
    that carries a page. *)
Definition multiple_choices (items : list json) : upstream :=
  Response 300 (Some (JObj [("data", JObj [("list", JArr items)])])).

(** [raise_for_status] lets a 300 through, so the page it carries is read
    and stored. *)
Lemma status_300_is_stored :
  non_success (multiple_choices [item100]) = true ∧
  request_fails (multiple_choices [item100]) = false ∧
  fetch_job None minimal calm (multiple_choices [item100]) [] =
    ([row100], [Fetching; Saved 1]) ∧
  ¬ non_success_leaves_store None minimal calm (multiple_choices [item100]) [].
Proof.
  split_and!; [reflexivity..|].
  intros H. specialize (H eq_refl). vm_compute in H. discriminate.
Qed.

Example next_run_after_http_500 :
  fetch_job None minimal calm (page [item100])
    (fetch_job None minimal calm (Response 500 None) [row101]).1 =
  ([row101; row100], [Fetching; Saved 1]).
Proof. reflexivity. Qed.

(** * What a run prints *)

Ltac in_log H :=
  repeat (apply elem_of_cons in H as [H|H]; [simplify_eq|]);
  try (by apply elem_of_nil in H).

(** C7, as the code has it.  Every run first prints [Fetching data...].  A
    [Saved n] line is printed exactly when the run completes with
    [new_count = n > 0], and then [n] is the number of rows the run added
    to the table; a run that completes with nothing new prints the
    [Fetching] line and no other. *)
Theorem fetch_job_log
    (DATABASE_URL : option string) (psycopg2 : Driver)
    (e : env) (u : upstream) (t : list row) :
  let log := (fetch_job DATABASE_URL psycopg2 e u t).2 in
  head log = Some Fetching ∧
  (∀ n, Saved n ∈ log ↔ completes DATABASE_URL psycopg2 e u t n ∧ (0 < n)%nat) ∧
  (∀ n, completes DATABASE_URL psycopg2 e u t n →
        ∃ rs new, (fetch_job DATABASE_URL psycopg2 e u t).1 = t ++ rs ++ new ∧
                  landed e rs ∧ length new = n) ∧
  (∀ ex, ErrorInFetchJob ex ∈ log ↔
         (try_fetch DATABASE_URL psycopg2 e u (Db t [] 0)).2 = inl ex) ∧
  (completes DATABASE_URL psycopg2 e u t 0 → log = [Fetching]).
Proof.
  unfold completes. rewrite fetch_job_cases. simpl.
  destruct (try_fetch DATABASE_URL psycopg2 e u (Db t [] 0)) as [s [ex|n]] eqn:Hrun;
    simpl.
  - split_and!; [done| |done| |done].
    + intros n. split; [intros Hin; by in_log Hin|by intros [? _]].
    + intros ex'. split; [intros Hin; by in_log Hin|].
      intros [= ->]. apply elem_of_cons. right. by left.
  - apply try_fetch_completes in Hrun
      as (data & items & rs & new & _ & _ & _ & Ht & Hl & Hlen).
    split_and!; [done| | | |].
    + intros n'. destruct (Nat.ltb_spec 0 n) as [Hpos|Hzero].
      * split; [intros Hin; by in_log Hin|].
        intros [[= <-] _]. apply elem_of_cons. right. by left.
      * split; [intros Hin; by in_log Hin|]. intros [[= <-] ?]. lia.
    + intros n' [= <-]. by exists rs, new.
    + intros ex'. split; [|done].
      destruct (0 <? n)%nat; intros Hin; by in_log Hin.
    + by intros [= ->].
Qed.

(** C7, as the specification has it: a run that inserts nothing prints
    nothing. *)
Definition silent_when_nothing_new
    (DATABASE_URL : option string) (psycopg2 : Driver)
    (e : env) (u : upstream) (t : list row) : Prop :=
  completes DATABASE_URL psycopg2 e u t 0 →
  (fetch_job DATABASE_URL psycopg2 e u t).2 = [].

(** The page [100] on a table that holds 100: nothing new, one line
    printed. *)
Lemma nothing_new_still_prints :
  completes None minimal calm (page [item100]) [row100] 0 ∧
  fetch_job None minimal calm (page [item100]) [row100] = ([row100], [Fetching]) ∧
  ¬ silent_when_nothing_new None minimal calm (page [item100]) [row100].
Proof.
  split_and!; [reflexivity..|].
  intros H. specialize (H eq_refl). vm_compute in H. discriminate.
Qed.

(** * Further properties of the worker *)

(** ** Where the rows of a run come from *)

(** [built_from conn item r]: row [r] is what the loop body makes of
    [item]: its issue is [str(item['issueNumber'])], its code
    [int(item['number'])], its open time what the driver keeps of
    [item['openTime']]. *)
Definition built_from (conn : Driver) (item : json) (r : row) : Prop :=
  ∃ c o, read_item item = inr (issue r, c, o) ∧
         bind_int conn c = Some (code r) ∧
         bind_text conn o = Some (open_time r).

Lemma fetch_item_adds e conn item n s s' r :
  fetch_item e conn item n s = (s', r) →
  ∃ new, pending s' = pending s ++ new ∧ Forall (built_from conn item) new.
Proof.
  unfold fetch_item, select_issue, insert, built_from. unfold_M.
  destruct (read_item item) as [ex|[[i c] o]].
  { intros ?; simplify_eq. exists []. by rewrite app_nil_r. }
  destruct (fault e (tick s)); simpl.
  { intros ?; simplify_eq. exists []. by rewrite app_nil_r. }
  destruct (bind_text conn (JStr i)); simpl;
    [|intros ?; simplify_eq; exists []; by rewrite app_nil_r].
  destruct (has_issue i (visible (land e s))).
  { intros ?; simplify_eq. exists []. by rewrite app_nil_r. }
  destruct (fault e (tick (land e s))); simpl.
  { intros ?; simplify_eq. exists []. by rewrite app_nil_r. }
  destruct (bind_int conn c) as [c'|] eqn:Hc; simpl;
    [|intros ?; simplify_eq; exists []; by rewrite app_nil_r].
  destruct (bind_text conn o) as [o'|] eqn:Ho; simpl;
    [|intros ?; simplify_eq; exists []; by rewrite app_nil_r].
  destruct (has_issue i (visible (land e (land e s)))); simpl.
  - intros ?; simplify_eq. exists []. by rewrite app_nil_r.
  - intros ?; simplify_eq. exists [Row i c' o']. split; [done|].
    apply Forall_singleton. by exists c, o.
Qed.

Lemma fetch_items_adds e conn items : ∀ n s s' r,
  fetch_items e conn items n s = (s', r) →
  ∃ new, pending s' = pending s ++ new ∧
         Forall (λ x, ∃ item, item ∈ items ∧ built_from conn item x) new.
Proof.
  induction items as [|item items IH]; intros n s s' r; simpl.
  - unfold_M. intros ?; simplify_eq. exists []. by rewrite app_nil_r.
  - unfold mbind, M_bind.
    destruct (fetch_item e conn item n s) as [s1 [ex|n1]] eqn:H1;
      apply fetch_item_adds in H1 as (new1 & Hp1 & Hb1).
    + intros ?; simplify_eq. exists new1. split; [done|].
      eapply Forall_impl; [exact Hb1|]. intros x Hx. exists item.
      split; [by left|done].
    + intros (new2 & Hp2 & Hb2)%IH. exists (new1 ++ new2).
      split; [by rewrite Hp2, Hp1, (assoc_L (++))|].
      apply Forall_app. split.
      * eapply Forall_impl; [exact Hb1|]. intros x Hx. exists item.
        split; [by left|done].
      * eapply Forall_impl; [exact Hb2|]. intros x (it & Hit & Hx).
        exists it. split; [by right|done].
Qed.

(** A run that completes, in full: the table it leaves is the table it
    found, then what other writers committed meanwhile, then the run's own
    rows, [new_count] of them, each built from an item of the page. *)
Lemma try_fetch_adds D pg e u t s' n :
  try_fetch D pg e u (Db t [] 0) = (s', inr n) →
  ∃ data items rs new,
    read_page u = inr data ∧ iter data = inr items ∧
    table s' = t ++ rs ++ new ∧ landed e rs ∧ length new = n ∧
    Forall (λ x, ∃ item, item ∈ items ∧ built_from (driver D pg) item x) new.
Proof.
  unfold try_fetch, get_db_connection, commit. unfold_M.
  destruct (read_page u) as [ex|data]; [done|].
  set (s0 := Db t [] 0).
  pose proof (land_grows e s0) as Hg0.
  destruct (fault e (tick s0)); simpl; [done|].
  destruct (iter data) as [ex|items] eqn:Hiter; [done|].
  fold (driver D pg).
  destruct (fetch_items e _ items 0%nat (land e s0)) as [s1 [ex|n1]] eqn:H1;
    [done|].
  pose proof H1 as (Hg1 & _)%fetch_items_step.
  pose proof H1 as (new & Hp & Hb)%fetch_items_adds.
  apply fetch_items_count in H1 as (new' & Hp' & Hn).
  destruct (Hn n1 eq_refl) as [-> _].
  pose proof (land_grows e s1) as Hg2.
  destruct (fault e (tick s1)); simpl; [done|].
  intros [= <- <-].
  destruct (grows_trans _ _ _ _ (grows_trans _ _ _ _ Hg0 Hg1) Hg2)
    as (rs & Hrs & Hl).
  exists data, items, rs, new. simpl in *.
  assert (new' = new) as -> by congruence.
  rewrite Hrs, Hp. by rewrite (assoc_L (++)).
Qed.

Lemma fetch_job_keeps_primary_key_witness :
  NoDup (issues [row101]) ∧
  NoDup (issues (fetch_job None minimal race
                   (page [item100; item101; item100]) [row101]).1).
Proof.
  assert (NoDup (issues [row101])) as Hnd by apply NoDup_singleton.
  split; [exact Hnd|].
  by apply (fetch_job_keeps_primary_key None minimal race
              (page [item100; item101; item100]) [row101]).
Defined.

(** ** Nothing is deleted, nothing is overwritten *)

Lemma same_issue_same_row (l : list row) r r' :
  NoDup (issues l) → r ∈ l → r' ∈ l → issue r = issue r' → r = r'.
Proof.
  induction l as [|x l IH]; simpl; intros Hnd Hr Hr' Heq.
  { by apply elem_of_nil in Hr. }
  apply NoDup_cons in Hnd as [Hx Hnd].
  assert (∀ y, y ∈ l → issue x ≠ issue y) as Hfresh.
  { intros y Hy Hxy. apply Hx. rewrite Hxy. unfold issues.
    by apply list_elem_of_fmap_2. }
  apply elem_of_cons in Hr as [->|Hr]; apply elem_of_cons in Hr' as [->|Hr'].
  - done.
  - by destruct (Hfresh r' Hr').
  - by destruct (Hfresh r Hr).
  - auto.
Qed.

Lemma fetch_job_extends D pg e u t : ∃ k, (fetch_job D pg e u t).1 = t ++ k.
Proof.
  rewrite fetch_job_cases. simpl.
  destruct (try_fetch D pg e u (Db t [] 0)) as [s [ex|n]] eqn:Hrun; simpl.
  - apply try_fetch_step in Hrun as (_ & _ & Habort).
    destruct (Habort ex eq_refl) as (rs & -> & _). by exists rs.
  - apply try_fetch_completes in Hrun
      as (data & items & rs & new & _ & _ & _ & -> & _). by exists (rs ++ new).
Qed.

(** X2. The worker only appends.  The table a run leaves starts with the
    table it found, row for row; so no row is deleted or changed, and a
    page that brings other data for an issue already stored does not
    replace the stored row (the first write wins). *)
Theorem fetch_job_appends_only
    (DATABASE_URL : option string) (psycopg2 : Driver)
    (e : env) (u : upstream) (t : list row) :
  t `prefix_of` (fetch_job DATABASE_URL psycopg2 e u t).1 ∧
  (NoDup (issues t) →
   ∀ r r', r ∈ t → r' ∈ (fetch_job DATABASE_URL psycopg2 e u t).1 →
           issue r' = issue r → r' = r).
Proof.
  destruct (fetch_job_extends DATABASE_URL psycopg2 e u t) as [k Hk].
  split; [by exists k|].
  intros Hnd r r' Hr Hr' Heq.
  assert (NoDup (issues (fetch_job DATABASE_URL psycopg2 e u t).1)) as Hnd'.
  { rewrite fetch_job_cases. simpl.
    destruct (try_fetch DATABASE_URL psycopg2 e u (Db t [] 0)) as [s x] eqn:Hrun.
    apply try_fetch_step in Hrun as (Hkey & _). auto. }
  eapply (same_issue_same_row _ r' r); [exact Hnd'|exact Hr'| |done].
  rewrite Hk. apply elem_of_app. by left.
Qed.

(** A page that brings issue 100 again, with another number. *)
Definition item100_again : json := item "100" (JInt 9) "2024-01-02T00:00:00".

Lemma fetch_job_appends_only_witness :
  let t' := (fetch_job None minimal calm (page [item100_again; item101]) [row100]).1 in
  NoDup (issues [row100]) ∧
  t' = [row100; row101] ∧
  [row100] `prefix_of` t' ∧
  ∀ r', r' ∈ t' → issue r' = issue row100 → r' = row100.
Proof.
  intros t'.
  assert (NoDup (issues [row100])) as Hnd by apply NoDup_singleton.
  destruct (fetch_job_appends_only None minimal calm
              (page [item100_again; item101]) [row100]) as [Hpre Hkeep].
  split_and!; [done|reflexivity|done|].
  intros r'. apply (Hkeep Hnd row100 r'). by left.
Defined.

(** X3. Every row in the table after a run was there before, or was
    committed by another writer, or was built from an item of the page:
    the worker stores nothing of its own making. *)
Theorem fetch_job_rows_have_a_source
    (DATABASE_URL : option string) (psycopg2 : Driver)
    (e : env) (u : upstream) (t : list row) (r : row) :
  r ∈ (fetch_job DATABASE_URL psycopg2 e u t).1 →
  r ∈ t ∨
  (∃ k, r ∈ others e k) ∨
  (∃ data items item,
     read_page u = inr data ∧ iter data = inr items ∧ item ∈ items ∧
     built_from (driver DATABASE_URL psycopg2) item r).
Proof.
  rewrite fetch_job_cases. simpl.
  destruct (try_fetch DATABASE_URL psycopg2 e u (Db t [] 0)) as [s [ex|n]] eqn:Hrun;
    simpl.
  - apply try_fetch_step in Hrun as (_ & _ & Habort).
    destruct (Habort ex eq_refl) as (rs & -> & Hl).
    intros [Hr|Hr]%elem_of_app; [by left|right; left; auto].
  - apply try_fetch_adds in Hrun
      as (data & items & rs & new & Hpage & Hiter & -> & Hl & _ & Hb).
    rewrite !elem_of_app. intros [Hr|[Hr|Hr]]; [by left|right; left; auto|].
    right. right. rewrite Forall_forall in Hb.
    destruct (Hb r Hr) as (it & Hit & Hbuilt). by exists data, items, it.
Qed.

Lemma fetch_job_rows_have_a_source_witness :
  row101 ∈ (fetch_job None minimal race (page [item101]) [row100]).1 ∧
  (row101 ∈ [row100] ∨
   (∃ k, row101 ∈ others race k) ∨
   (∃ data items item,
      read_page (page [item101]) = inr data ∧ iter data = inr items ∧
      item ∈ items ∧ built_from (driver None minimal) item row101)).
Proof.
  assert (row101 ∈ (fetch_job None minimal race (page [item101]) [row100]).1) as Hin.
  { vm_compute. apply list_elem_of_In. simpl. auto. }
  split; [exact Hin|].
  by apply (fetch_job_rows_have_a_source None minimal race (page [item101]) [row100]).
Defined.

(** ** One writer *)

Lemma land_alone e s :
  (∀ k, others e k = []) → land e s = Db (table s) (pending s) (S (tick s)).
Proof. intros Hnone. unfold land. by rewrite Hnone. Qed.

Lemma fetch_item_alone e conn item n s s' r j :
  (∀ k, others e k = []) →
  fetch_item e conn item n s = (s', r) → r ≠ inl (IntegrityError j).
Proof.
  intros Hnone. unfold fetch_item, select_issue, insert. unfold_M.
  pose proof (read_item_not_integrity item j) as Hread.
  destruct (read_item item) as [ex|[[i c] o]].
  { intros ?; simplify_eq. intros [= ->]. by destruct Hread. }
  clear Hread. rewrite !land_alone by done. simpl.
  destruct (fault e (tick s)); simpl; [by intros ?; simplify_eq|].
  destruct (bind_text conn (JStr i)); simpl; [|by intros ?; simplify_eq].
  unfold visible at 1. simpl. fold (visible s).
  destruct (has_issue i (visible s)) eqn:Hfound; [by intros ?; simplify_eq|].
  rewrite !land_alone by done. simpl.
  destruct (fault e (S (tick s))); simpl; [by intros ?; simplify_eq|].
  destruct (bind_int conn c); simpl; [|by intros ?; simplify_eq].
  destruct (bind_text conn o); simpl; [|by intros ?; simplify_eq].
  unfold visible at 1. simpl. fold (visible s). rewrite Hfound.
  by intros ?; simplify_eq.
Qed.

Lemma fetch_items_alone e conn items j :
  (∀ k, others e k = []) →
  ∀ n s s' r, fetch_items e conn items n s = (s', r) → r ≠ inl (IntegrityError j).
Proof.
  intros Hnone. induction items as [|item items IH]; intros n s s' r; simpl.
  - unfold_M. by intros ?; simplify_eq.
  - unfold mbind, M_bind.
    destruct (fetch_item e conn item n s) as [s1 [ex|n1]] eqn:H1.
    + apply (fetch_item_alone _ _ _ _ _ _ _ j Hnone) in H1.
      intros ?; simplify_eq. done.
    + apply IH.
Qed.

Lemma try_fetch_alone D pg e u t j :
  (∀ k, others e k = []) →
  (try_fetch D pg e u (Db t [] 0)).2 ≠ inl (IntegrityError j).
Proof.
  intros Hnone. unfold try_fetch, get_db_connection, commit. unfold_M.
  pose proof (read_page_not_integrity u j) as Hpage.
  destruct (read_page u) as [ex|data]; simpl.
  { intros [= ->]. by destruct Hpage. }
  destruct (fault e 0); simpl; [done|].
  pose proof (iter_not_integrity data j) as Hiter.
  destruct (iter data) as [ex|items]; simpl.
  { intros [= ->]. by destruct Hiter. }
  destruct (fetch_items e _ items 0%nat _) as [s1 [ex|n]] eqn:H1; simpl.
  - by apply (fetch_items_alone _ _ _ j Hnone) in H1.
  - by destruct (fault e (tick s1)).
Qed.

(** X4. With one writer the exists check is enough: whatever the page holds
    (the same issue twice, issues already stored) and whatever faults the
    store has, no insert of the run violates the primary key. *)
Theorem single_writer_never_conflicts
    (DATABASE_URL : option string) (psycopg2 : Driver)
    (e : env) (u : upstream) (t : list row) (i : string) :
  (∀ k, others e k = []) →
  (try_fetch DATABASE_URL psycopg2 e u (Db t [] 0)).2 ≠ inl (IntegrityError i) ∧
  ErrorInFetchJob (IntegrityError i) ∉ (fetch_job DATABASE_URL psycopg2 e u t).2.
Proof.
  intros Hnone.
  pose proof (try_fetch_alone DATABASE_URL psycopg2 e u t i Hnone) as Hrun.
  split; [done|]. rewrite fetch_job_cases. simpl.
  destruct (try_fetch DATABASE_URL psycopg2 e u (Db t [] 0)).2 as [ex|n].
  - intros Hin. by in_log Hin.
  - destruct (0 <? n)%nat; intros Hin; by in_log Hin.
Qed.

Lemma single_writer_never_conflicts_witness :
  (∀ k, others calm k = []) ∧
  fetch_job None minimal calm (page [item100; item100_again; item100]) [row101] =
    ([row101; row100], [Fetching; Saved 1]) ∧
  (try_fetch None minimal calm (page [item100; item100_again; item100])
     (Db [row101] [] 0)).2 ≠ inl (IntegrityError "100") ∧
  ErrorInFetchJob (IntegrityError "100") ∉
    (fetch_job None minimal calm (page [item100; item100_again; item100]) [row101]).2.
Proof.
  assert (∀ k, others calm k = []) as Hnone by done.
  split; [exact Hnone|]. split; [reflexivity|].
  by apply (single_writer_never_conflicts None minimal calm
              (page [item100; item100_again; item100]) [row101] "100").
Defined.

(** ** What a completed run has stored *)

Lemma payload_issues_elem u data items i :
  read_page u = inr data → iter data = inr items →
  i ∈ payload_issues u ↔
  ∃ item c o, item ∈ items ∧ read_item item = inr (i, c, o).
Proof.
  intros Hpage Hiter. unfold payload_issues. rewrite Hpage. simpl.
  unfold mbind, result_bind. rewrite Hiter. rewrite list_elem_of_omap. split.
  - intros (item & Hitem & Hi).
    destruct (read_item item) as [ex|[[i' c] o]] eqn:Hread; [done|].
    simplify_eq. by exists item, c, o.
  - intros (item & c & o & Hitem & Hread). exists item. by rewrite Hread.
Qed.

(** X5. A run that completes, with no fault and no other writer, leaves
    exactly the issues that were stored and the issues of the page, and its
    [new_count] is the number of distinct issues of the page that were not
    stored before. *)
Theorem completed_run_stores_exactly
    (DATABASE_URL : option string) (psycopg2 : Driver)
    (u : upstream) (t : list row) (n : nat) :
  completes DATABASE_URL psycopg2 calm u t n →
  NoDup (issues t) →
  let t' := (fetch_job DATABASE_URL psycopg2 calm u t).1 in
  (∀ i, i ∈ issues t' ↔ i ∈ issues t ∨ i ∈ payload_issues u) ∧
  n = length (remove_dups (filter (λ i, i ∉ issues t) (payload_issues u))).
Proof.
  intros Hrun Hnd.
  pose proof Hrun as (data & items & new & Hpage & Hiter & Hjob & Hlen & Hst & Hnd')
    %completed_run_stores.
  specialize (Hnd' Hnd). rewrite Hjob. simpl.
  unfold completes in Hrun.
  destruct (try_fetch DATABASE_URL psycopg2 calm u (Db t [] 0)) as [s x] eqn:Htry.
  simpl in Hrun. subst x.
  pose proof Htry as Htry'.
  apply try_fetch_adds in Htry'
    as (data' & items' & rs & new' & Hpage' & Hiter' & Ht & ->%landed_calm & _ & Hb).
  rewrite Hpage in Hpage'. simplify_eq. rewrite Hiter in Hiter'. simplify_eq.
  assert (new' = new) as ->.
  { rewrite fetch_job_cases, Htry in Hjob. simpl in Hjob.
    rewrite Ht in Hjob. apply (f_equal fst) in Hjob. simpl in Hjob.
    by apply app_inv_head in Hjob. }
  assert (∀ i, i ∈ issues new ↔ i ∈ payload_issues u ∧ i ∉ issues t) as Hnew.
  { intros i. rewrite issues_app in Hnd'. apply NoDup_app in Hnd' as (_ & Hdisj & _).
    split.
    - intros Hi. split; [|intros Hit; by apply (Hdisj i)].
      unfold issues in Hi. apply list_elem_of_fmap in Hi as (r & -> & Hr).
      rewrite Forall_forall in Hb.
      destruct (Hb r Hr) as (item & Hitem & c & o & Hread & _).
      apply (payload_issues_elem u data' items' _ Hpage Hiter).
      by exists item, c, o.
    - intros [Hi Hit].
      pose proof (payload_issue_stored DATABASE_URL psycopg2 u data' items'
                    (t ++ new) i Hpage Hiter Hst Hi) as Hin.
      rewrite issues_app in Hin.
      apply elem_of_app in Hin as [Hin|Hin]; [by destruct Hit|done]. }
  split.
  - intros i. rewrite issues_app, elem_of_app, Hnew.
    destruct (decide (i ∈ issues t)); tauto.
  - transitivity (length (issues new)).
    { unfold issues. by rewrite length_fmap. }
    apply Permutation_length, NoDup_Permutation.
    + rewrite issues_app in Hnd'. by apply NoDup_app in Hnd' as (_ & _ & ?).
    + apply NoDup_remove_dups.
    + intros i. rewrite Hnew, elem_of_remove_dups, list_elem_of_filter. tauto.
Qed.

Lemma completed_run_stores_exactly_witness :
  let u := page [item100; item101; item100_again] in
  let t' := (fetch_job None minimal calm u [row101]).1 in
  completes None minimal calm u [row101] 1 ∧
  NoDup (issues [row101]) ∧
  (∀ i, i ∈ issues t' ↔ i ∈ issues [row101] ∨ i ∈ payload_issues u) ∧
  1%nat = length (remove_dups (filter (λ i, i ∉ issues [row101]) (payload_issues u))).
Proof.
  intros u t'.
  assert (completes None minimal calm u [row101] 1) as Hrun by reflexivity.
  assert (NoDup (issues [row101])) as Hnd by apply NoDup_singleton.
  split; [exact Hrun|]. split; [exact Hnd|].
  apply (completed_run_stores_exactly None minimal u [row101] 1 Hrun Hnd).
Defined.

(** * Further properties of the endpoint *)

(** X6. [ORDER BY issue DESC LIMIT n] leaves out only rows whose issue is
    no greater than every issue it returns: the rows returned are the [n]
    greatest, and all the rows when the table has no more than [n]; the
    endpoint reads with [n = 50]. *)
Theorem recentRecords_are_the_greatest
    (DATABASE_URL : option string) (psycopg2 : Driver) (n : nat) (t : list row) :
  let conn := driver DATABASE_URL psycopg2 in
  ∃ rest,
    t ≡ₚ recentRecords conn n t ++ rest ∧
    (∀ r r', r ∈ recentRecords conn n t → r' ∈ rest →
             collate conn (issue r') (issue r)) ∧
    (length t ≤ n → rest = [])%nat.
Proof.
  intros conn. exists (drop n (merge_sort (desc conn) t)).
  unfold recentRecords. split_and!.
  - by rewrite take_drop, merge_sort_Permutation.
  - intros r r' Hr Hr'.
    pose proof (StronglySorted_merge_sort (desc conn) t) as Hs.
    rewrite <- (take_drop n (merge_sort (desc conn) t)) in Hs.
    apply (StronglySorted_app_1_elem_of _ _ _ r r' Hs Hr Hr').
  - intros Hlen. apply drop_ge.
    by rewrite (Permutation_length (merge_sort_Permutation (desc conn) t)).
Qed.

Lemma recentRecords_by_key drv n t t' :
  NoDup (issues t) → t ≡ₚ t' → recentRecords drv n t = recentRecords drv n t'.
Proof.
  intros Hnd Hperm. unfold recentRecords. f_equal.
  apply (StronglySorted_unique_strong (desc drv)).
  - intros r r' Hr Hr' H1 H2. unfold desc in *.
    rewrite merge_sort_Permutation in Hr, Hr'. rewrite <- Hperm in Hr'.
    apply (same_issue_same_row t); [done..|].
    by apply (anti_symm (collate drv)).
  - apply StronglySorted_merge_sort; apply _.
  - apply StronglySorted_merge_sort; apply _.
  - by rewrite !merge_sort_Permutation.
Qed.

(** X7. The answer of [/api/history] depends on which rows are stored, not
    on the order in which they were inserted: two tables with the same
    rows, keyed by issue, get the same answer. *)
Theorem get_history_ignores_insertion_order
    (DATABASE_URL : option string) (psycopg2 : Driver) (t t' : list row) :
  NoDup (issues t) → t ≡ₚ t' →
  get_history DATABASE_URL psycopg2 calm t = get_history DATABASE_URL psycopg2 calm t'.
Proof.
  intros Hnd Hperm. unfold get_history. rewrite !read_history_calm.
  by rewrite (recentRecords_by_key _ _ t t').
Qed.

Lemma get_history_ignores_insertion_order_witness :
  NoDup (issues [row100; row101]) ∧
  [row100; row101] ≡ₚ [row101; row100] ∧
  get_history None minimal calm [row100; row101] =
  get_history None minimal calm [row101; row100].
Proof.
  assert (NoDup (issues [row100; row101])) as Hnd.
  { apply NoDup_cons. split; [|apply NoDup_singleton].
    intros Hin. apply list_elem_of_In in Hin. simpl in Hin.
    by destruct Hin as [Hin|[]]. }
  assert ([row100; row101] ≡ₚ [row101; row100]) as Hperm by apply Permutation_swap.
  split_and!; [done|done|].
  by apply (get_history_ignores_insertion_order None minimal).
Defined.

(** ** [int] reads back what [str] writes *)

Fixpoint solid (s : string) : bool :=
  match s with
  | "" => true
  | String c s' => negb (isspace c) && solid s'
  end.

Lemma lstrip_solid s : solid s = true → lstrip s = s.
Proof.
  destruct s as [|c s]; [done|]. simpl.
  intros [Hc _]%andb_true_iff. by destruct (isspace c).
Qed.

Lemma solid_rev_app s acc :
  solid s = true → solid acc = true → solid (String.rev_app s acc) = true.
Proof.
  revert acc. induction s as [|c s IH]; intros acc; simpl; [done|].
  intros [Hc Hs]%andb_true_iff Hacc. apply IH; [done|]. simpl.
  by rewrite Hc, Hacc.
Qed.

Lemma rev_app_rev_app s1 s2 s3 :
  String.rev_app (String.rev_app s1 s2) s3 = String.rev_app s2 (s1 +:+ s3).
Proof.
  revert s2. induction s1 as [|c s1 IH]; intros s2; simpl; [done|].
  by rewrite IH.
Qed.

Lemma strip_solid s : solid s = true → strip s = s.
Proof.
  intros Hs. unfold strip. rewrite (lstrip_solid s Hs).
  rewrite lstrip_solid by (by apply solid_rev_app).
  unfold String.rev. rewrite rev_app_rev_app. simpl.
  clear Hs. induction s as [|c s IH]; [done|].
  change (String c s +:+ "") with (String c (s +:+ "")). by rewrite IH.
Qed.

Lemma digit_of_pretty_N_char m :
  (m < 10)%N → digit_of (pretty_N_char m) = Some (Z.of_N m).
Proof.
  intros Hm.
  assert (m = 0 ∨ m = 1 ∨ m = 2 ∨ m = 3 ∨ m = 4 ∨ m = 5 ∨ m = 6 ∨ m = 7
          ∨ m = 8 ∨ m = 9)%N as Hcases by lia.
  repeat (destruct Hcases as [->|Hcases]; [done|]). by subst.
Qed.

Lemma solid_pretty_N_char m : isspace (pretty_N_char m) = false.
Proof. unfold pretty_N_char. by repeat case_match. Qed.

Lemma solid_pretty_N_go x : ∀ s, solid s = true → solid (pretty_N_go x s) = true.
Proof.
  induction (N.lt_wf_0 x) as [x _ IH]; intros s Hs.
  assert (x = 0 ∨ 0 < x)%N as [->|Hx] by lia; [by rewrite pretty_N_go_0|].
  rewrite pretty_N_go_step by done. apply IH; [by apply N.div_lt|].
  simpl. by rewrite solid_pretty_N_char.
Qed.

Lemma int_digits_pretty_N_go x : ∀ s,
  int_digits 0 (pretty_N_go x s) = int_digits (Z.of_N x) s.
Proof.
  induction (N.lt_wf_0 x) as [x _ IH]; intros s.
  assert (x = 0 ∨ 0 < x)%N as [->|Hx] by lia; [by rewrite pretty_N_go_0|].
  rewrite pretty_N_go_step by done. rewrite IH by (by apply N.div_lt).
  simpl. rewrite digit_of_pretty_N_char by (by apply N.mod_lt).
  f_equal. rewrite (N.div_mod x 10) at 3 by done. lia.
Qed.

(** A decimal numeral begins with a digit. *)
Lemma pretty_N_go_head x : ∀ s,
  (0 < x)%N → ∃ c s' d, pretty_N_go x s = String c s' ∧ digit_of c = Some d.
Proof.
  induction (N.lt_wf_0 x) as [x _ IH]; intros s Hx.
  rewrite pretty_N_go_step by done.
  destruct (N.eq_0_gt_0_cases (x `div` 10)) as [->|Hq].
  - rewrite pretty_N_go_0. eexists _, _, _. split; [done|].
    apply digit_of_pretty_N_char. by apply N.mod_lt.
  - apply IH; [by apply N.div_lt|done].
Qed.

Lemma int_unsigned_pretty_positive p :
  ∃ c s', pretty_N_go (Npos p) "" = String c s' ∧
          c ≠ "+"%char ∧ c ≠ "-"%char ∧
          int_unsigned (String c s') = Some (Zpos p).
Proof.
  destruct (pretty_N_go_head (Npos p) "") as (c & s' & d & Hgo & Hd); [lia|].
  exists c, s'. split_and!; [done| | |].
  - intros ->. by vm_compute in Hd.
  - intros ->. by vm_compute in Hd.
  - pose proof (int_digits_pretty_N_go (Npos p) "") as Hint.
    rewrite Hgo in Hint. simpl in Hint. simpl. rewrite Hd in *. simpl.
    by replace d with (10 * 0 + d) by lia.
Qed.

Lemma int_of_string_pretty (z : Z) : int_of_string (pretty z) = Some z.
Proof.
  unfold int_of_string. rewrite strip_solid.
  2:{ destruct z as [|p|p]; [done| |].
      - apply (solid_pretty_N_go (Npos p) ""). done.
      - change (pretty (Zneg p)) with (String "-" (pretty_N_go (Npos p) "")).
        simpl. by apply solid_pretty_N_go. }
  destruct z as [|p|p]; [done| |].
  - change (pretty (Zpos p)) with (pretty_N_go (Npos p) "").
    destruct (int_unsigned_pretty_positive p) as (c & s' & -> & Hplus & Hminus & Hint).
    by rewrite !decide_False by done.
  - change (pretty (Zneg p)) with (String "-" (pretty_N_go (Npos p) "")).
    simpl.
    destruct (int_unsigned_pretty_positive p) as (c & s' & -> & _ & _ & ->).
    done.
Qed.

(** ** The answer as a page *)

(** The [openTime] of a served item. *)
Definition open_time_json (r : row) : json :=
  match open_time r with
  | Some s => JStr s
  | None => JNull
  end.

Lemma read_item_format_row r :
  read_item (format_row r) = inr (issue r, code r, open_time_json r).
Proof.
  unfold read_item, format_row. simpl. unfold mbind, result_bind. simpl.
  by rewrite int_of_string_pretty.
Qed.

(** X8. Every item of a successful answer of [/api/history] is an item the
    worker's own loop accepts, and reads back to the stored row: its
    [issueNumber] gives the issue, [int] of its [number] the stored code. *)
Theorem served_items_read_back
    (DATABASE_URL : option string) (psycopg2 : Driver)
    (e : env) (t : list row) (body : json) :
  get_history DATABASE_URL psycopg2 e t = (body, 200) →
  ∃ rows,
    rows ⊆+ seen e t ∧
    get body "data" JNull ≫= (λ d, get d "list" JNull)
      = inr (JArr (format_row <$> rows)) ∧
    Forall2 (λ served r, read_item served = inr (issue r, code r, open_time_json r))
            (format_row <$> rows) rows.
Proof.
  unfold get_history. rewrite read_history_cases.
  destruct (read_fault e) as [msg|]; [intros [= _ ?]; done|].
  intros [= <-]. eexists. split_and!; [apply recentRecords_rows|done|].
  apply Forall2_fmap_l, Forall_Forall2_diag, Forall_forall.
  intros r _. apply read_item_format_row.
Qed.

Lemma served_items_read_back_witness :
  ∃ rows,
    rows ⊆+ seen calm [row100; Row "99" (-3) None] ∧
    get (get_history None minimal calm [row100; Row "99" (-3) None]).1 "data" JNull
      ≫= (λ d, get d "list" JNull)
      = inr (JArr (format_row <$> rows)) ∧
    Forall2 (λ served r, read_item served = inr (issue r, code r, open_time_json r))
            (format_row <$> rows) rows.
Proof.
  apply (served_items_read_back None minimal calm [row100; Row "99" (-3) None]).
  vm_compute. reflexivity.
Defined.

(** ** A mirror of the mirror *)

Lemma fetch_items_served rows : ∀ n s,
  NoDup (issues rows) →
  (∀ i, i ∈ issues rows → i ∉ issues (visible s)) →
  Forall (λ r, int64 (code r) = true) rows →
  fetch_items calm sqlite3 (format_row <$> rows) n s =
  (Db (table s) (pending s ++ rows) (tick s + 2 * length rows),
   inr (n + length rows)%nat).
Proof.
  induction rows as [|r rows IH]; intros n s Hnd Hfresh H64; simpl.
  - unfold_M. destruct s. simpl. by rewrite app_nil_r, !Nat.add_0_r.
  - apply NoDup_cons in Hnd as [Hr Hnd]. apply Forall_cons in H64 as [Hc H64].
    unfold mbind, M_bind. rewrite fetch_item_calm, read_item_format_row.
    change (bind_text sqlite3 (JStr (issue r))) with (Some (Some (issue r))).
    assert (has_issue (issue r) (visible s) = false) as ->.
    { apply has_issue_false, Hfresh. by left. }
    unfold bind_int. simpl. rewrite Hc.
    assert (bind_text sqlite3 (open_time_json r) = Some (open_time r)) as ->.
    { unfold open_time_json. by destruct (open_time r). }
    assert (Row (issue r) (code r) (open_time r) = r) as -> by (by destruct r).
    rewrite IH; [|done| |done].
    + simpl. rewrite <- (assoc_L (++)). simpl. do 2 f_equal; [f_equal|]; lia.
    + intros i Hi. unfold visible. simpl.
      rewrite (assoc_L (++)), issues_app. simpl.
      intros [Hin|Hin]%elem_of_app.
      * apply (Hfresh i); [by right|done].
      * apply list_elem_of_singleton in Hin. by subst.
Qed.

Lemma NoDup_of_submseteq {A} (l k : list A) : l ⊆+ k → NoDup k → NoDup l.
Proof.
  intros [k' Hk]%submseteq_Permutation. rewrite Hk.
  by intros [? _]%NoDup_app.
Qed.

Lemma Forall_of_submseteq {A} (P : A → Prop) (l k : list A) :
  l ⊆+ k → Forall P k → Forall P l.
Proof.
  intros [k' Hk]%submseteq_Permutation. rewrite Hk.
  by intros [? _]%Forall_app.
Qed.

Lemma recentRecords_issues drv n t :
  NoDup (issues t) → NoDup (issues (recentRecords drv n t)).
Proof.
  apply NoDup_of_submseteq. unfold issues.
  apply fmap_submseteq, recentRecords_rows.
Qed.

Lemma recentRecords_again drv n t :
  NoDup (issues t) →
  recentRecords drv n (recentRecords drv n t) = recentRecords drv n t.
Proof.
  intros Hnd.
  assert (NoDup (issues (recentRecords drv n t))) as Hnd'
    by (by apply recentRecords_issues).
  assert (merge_sort (desc drv) (recentRecords drv n t) = recentRecords drv n t) as Hs.
  { apply (StronglySorted_unique_strong (desc drv)).
    - intros r r' Hr Hr' H1 H2. unfold desc in *.
      rewrite merge_sort_Permutation in Hr.
      apply (same_issue_same_row (recentRecords drv n t)); [done..|].
      by apply (anti_symm (collate drv)).
    - apply StronglySorted_merge_sort; apply _.
    - apply recentRecords_sorted.
    - apply merge_sort_Permutation. }
  unfold recentRecords at 1. rewrite Hs. apply take_ge.
  rewrite recentRecords_length. lia.
Qed.

(** X9. On the local store, a second instance of this program whose worker
    is fed the answer of the first one's [/api/history] stores exactly the
    rows of that answer, and then serves the same answer: the endpoint
    speaks the format the worker reads. *)
Theorem mirror_of_the_mirror
    (DATABASE_URL : option string) (psycopg2 : Driver) (t : list row) :
  truthy DATABASE_URL = false →
  NoDup (issues t) →
  Forall (λ r, int64 (code r) = true) t →
  let answer := get_history DATABASE_URL psycopg2 calm t in
  let run := fetch_job DATABASE_URL psycopg2 calm (Response 200 (Some answer.1)) [] in
  run.1 = recentRecords sqlite3 50 t ∧
  run.2 = Fetching :: (if (0 <? length run.1)%nat then [Saved (length run.1)] else []) ∧
  get_history DATABASE_URL psycopg2 calm run.1 = answer.
Proof.
  intros Hlocal Hnd H64 answer run. subst run answer.
  assert (driver DATABASE_URL psycopg2 = sqlite3) as Hdrv
    by (unfold driver; by rewrite Hlocal).
  set (rows := recentRecords sqlite3 50 t).
  assert (get_history DATABASE_URL psycopg2 calm t =
          (JObj [("code", JInt 0); ("msg", JStr "Success");
                 ("data", JObj [("totalCount", JInt (Z.of_nat (length (format_row <$> rows))));
                                ("list", JArr (format_row <$> rows))])], 200)) as Hans.
  { unfold get_history. by rewrite read_history_calm, Hdrv. }
  assert (fetch_job DATABASE_URL psycopg2 calm
            (Response 200 (Some (get_history DATABASE_URL psycopg2 calm t).1)) [] =
          (rows, Fetching :: (if (0 <? length rows)%nat then [Saved (length rows)] else [])))
    as Hrun.
  { rewrite Hans. unfold fetch_job, try_fetch, get_db_connection, commit.
    unfold_M. simpl. rewrite Hlocal. rewrite land_calm. simpl.
    rewrite fetch_items_served.
    - done.
    - by apply recentRecords_issues.
    - intros i _ Hi. by apply elem_of_nil in Hi.
    - eapply Forall_of_submseteq; [|exact H64]. apply recentRecords_rows. }
  rewrite Hrun. simpl. split_and!; [done..|].
  rewrite Hans. unfold get_history. rewrite read_history_calm, Hdrv.
  fold rows. unfold rows. by rewrite recentRecords_again.
Qed.

Lemma mirror_of_the_mirror_witness :
  let t := [Row "99" (-3) None; row101; row100] in
  let answer := get_history None minimal calm t in
  let run := fetch_job None minimal calm (Response 200 (Some answer.1)) [] in
  truthy None = false ∧
  NoDup (issues t) ∧
  Forall (λ r, int64 (code r) = true) t ∧
  run.1 = [Row "99" (-3) None; row101; row100] ∧
  run.2 = [Fetching; Saved 3] ∧
  get_history None minimal calm run.1 = answer.
Proof.
  intros t answer run.
  assert (NoDup (issues t)) as Hnd.
  { unfold t, issues. simpl. repeat (apply NoDup_cons; split).
    - rewrite !elem_of_cons, elem_of_nil. by intros [|[|]].
    - rewrite !elem_of_cons, elem_of_nil. by intros [|].
    - by intros ?%elem_of_nil.
    - apply NoDup_nil_2. }
  assert (Forall (λ r, int64 (code r) = true) t) as H64.
  { repeat constructor. }
  destruct (mirror_of_the_mirror None minimal t eq_refl Hnd H64) as (H1 & H2 & H3).
  split_and!; [done|done|done| | |exact H3].
  - etrans; [exact H1|]. vm_compute. reflexivity.
  - etrans; [exact H2|]. vm_compute. reflexivity.
Defined.

(** ** Pages without items *)

(** X10. The defaults of [r.json().get('data', {}).get('list', [])] cover
    absent keys only.  A body that is an object without [data], or whose
    [data] is an object without [list], is a page of no items: the run
    completes, stores nothing and prints the first line alone.  A body, or a
    [data], that is present and not an object (a null among them) raises
    [AttributeError] before the store is opened, under any surroundings; a
    [list] that is present and a null, a boolean or a number raises
    [TypeError] at the loop.  In both cases the error is printed and the
    table is left as it was. *)
Theorem page_defaults_cover_absent_keys
    (DATABASE_URL : option string) (psycopg2 : Driver)
    (status : Z) (t : list row) :
  request_fails (Response status None) = false →
  let run e j := fetch_job DATABASE_URL psycopg2 e (Response status (Some j)) t in
  (∀ d, lookup_key "data" d = None → run calm (JObj d) = (t, [Fetching])) ∧
  (∀ d d', lookup_key "data" d = Some (JObj d') → lookup_key "list" d' = None →
     run calm (JObj d) = (t, [Fetching])) ∧
  (∀ e j, (∀ d, j ≠ JObj d) →
     run e j = (t, [Fetching; ErrorInFetchJob AttributeError])) ∧
  (∀ e d v, lookup_key "data" d = Some v → (∀ d', v ≠ JObj d') →
     run e (JObj d) = (t, [Fetching; ErrorInFetchJob AttributeError])) ∧
  (∀ d d' v, lookup_key "data" d = Some (JObj d') → lookup_key "list" d' = Some v →
     v = JNull ∨ (∃ b, v = JBool b) ∨ (∃ n, v = JInt n) →
     run calm (JObj d) = (t, [Fetching; ErrorInFetchJob TypeError])).
Proof.
  intros Hok run. subst run. simpl in Hok.
  assert (raise_for_status status = inr ()) as Hst
    by (unfold raise_for_status; by rewrite Hok).
  unfold fetch_job, try_fetch, get_db_connection, commit, read_page.
  rewrite Hst. split_and!.
  - intros d Hd. unfold_M. simpl. rewrite Hd. simpl.
    by rewrite app_nil_r.
  - intros d d' Hd Hd'. unfold_M. simpl. rewrite Hd. simpl. rewrite Hd'. simpl.
    by rewrite app_nil_r.
  - intros e j Hj. unfold_M. destruct j as [|?|?|?|?|d0]; simpl; try done.
    by destruct (Hj d0).
  - intros e d v Hd Hv. unfold_M. simpl. rewrite Hd. simpl.
    destruct v as [|?|?|?|?|d0]; simpl; try done. by destruct (Hv d0).
  - intros d d' v Hd Hd' Hv. unfold_M. simpl. rewrite Hd. simpl. rewrite Hd'. simpl.
    by destruct Hv as [->|[[b ->]|[n ->]]].
Qed.

Lemma page_defaults_cover_absent_keys_witness :
  let run e j := fetch_job None minimal e (Response 200 (Some j)) [row101] in
  request_fails (Response 200 None) = false ∧
  run calm (JObj [("code", JInt 0)]) = ([row101], [Fetching]) ∧
  run calm (JObj [("data", JObj [("totalCount", JInt 0)])]) = ([row101], [Fetching]) ∧
  run race (JArr [item100]) = ([row101], [Fetching; ErrorInFetchJob AttributeError]) ∧
  run race (JObj [("data", JNull)]) = ([row101], [Fetching; ErrorInFetchJob AttributeError]) ∧
  run calm (JObj [("data", JObj [("list", JNull)])])
    = ([row101], [Fetching; ErrorInFetchJob TypeError]).
Proof.
  intros run.
  destruct (page_defaults_cover_absent_keys None minimal 200 [row101] eq_refl)
    as (H1 & H2 & H3 & H4 & H5).
  split_and!.
  - reflexivity.
  - by apply H1.
  - by apply (H2 _ [("totalCount", JInt 0)]).
  - by apply H3.
  - by apply (H4 _ _ JNull).
  - apply (H5 _ [("list", JNull)] JNull); [done..|by left].
Defined.
